(** * Zenroom P-256 binding (src/zen_p256.c): a shallow embedding

    The C file binds the p256-m curve engine to Lua.  Every exported
    function reads its arguments from the Lua stack as octets, checks
    sizes and prefixes, calls the engine on raw byte buffers and pushes
    its results back on the stack.

    The embedding keeps that shape:
    - an [octet] is the Milagro struct: a buffer [val] and a length [len];
    - the Lua stack is a list of values, bottom first; an octet created
      with [o_new] lives on the stack and the C pointer to it is its stack
      slot, so that later stores through the pointer change what Lua sees;
    - the curve engine, the SHA-256 primitive and the octet allocator are
      declared in headers that are not part of this file; they are taken
      as interfaces (type classes);
    - every call into the engine is logged in the state, so that the order
      and the arguments of engine calls can be stated;
    - a load or store outside a buffer and a store through NULL are
      undefined behaviour in C; the embedding makes them an explicit
      [Undefined] outcome. *)

From Stdlib Require Import ZArith Lia Bool.
From Stdlib Require Import Strings.String Strings.Byte.
From stdpp Require Import base option list.

Local Open Scope string_scope.
Local Open Scope Z_scope.
Local Open Scope list_scope.

(** ** Sizes (the #define block) *)

Definition PK_SIZE : Z := 64.
Definition UNCOMPRESSED_PK_SIZE : Z := 65.
Definition COMPRESSED_PK_SIZE : Z := 33.
Definition PK_COORD_SIZE : Z := 32.
Definition SK_SIZE : Z := 32.
Definition HASH_SIZE : Z := 32.
Definition SIG_SIZE : Z := 64.

(** ** Octets and buffers *)

Abbreviation byte := Byte.byte.

(** Milagro's [octet]: [val] is the whole allocated buffer, [len] the
    number of bytes in use ([int len] in C). *)
Record octet := Octet { val : list byte; len : Z }.

(** The logical content of an octet: its first [len] bytes. *)
Definition octet_bytes (o : octet) : list byte := take (Z.to_nat (len o)) (val o).

(** What [o_arg] guarantees about the octets it hands out. *)
Definition octet_wf (o : octet) : Prop :=
  0 <= len o /\ (Z.to_nat (len o) <= length (val o))%nat.

Definition octet_of_bytes (bs : list byte) : octet :=
  {| val := bs; len := Z.of_nat (length bs) |}.

(** [buf[i]] as an rvalue; [None] is a read outside the buffer. *)
Definition load (buf : list byte) (i : nat) : option byte := buf !! i.

(** [buf[i] = b]; [None] is a write outside the buffer. *)
Definition store (buf : list byte) (i : nat) (b : byte) : option (list byte) :=
  if decide (i < length buf)%nat then Some (<[i := b]> buf) else None.

(** The engine reads [n] bytes starting at the pointer. *)
Definition read_bytes (buf : list byte) (n : Z) : option (list byte) :=
  if decide (Z.to_nat n <= length buf)%nat then Some (take (Z.to_nat n) buf) else None.

(** The engine writes [out] starting at the pointer. *)
Definition write_bytes (buf : list byte) (out : list byte) : option (list byte) :=
  if decide (length out <= length buf)%nat
  then Some (out ++ drop (length out) buf) else None.

(** [for (i = start; i < start + n; i++) body], threading the loop's data. *)
Fixpoint for_from {A : Type} (i n : nat) (body : nat -> A -> option A) (a : A)
  : option A :=
  match n with
  | O => Some a
  | S n' =>
      match body i a with
      | Some a' => for_from (S i) n' body a'
      | None => None
      end
  end.

Definition for_upto {A : Type} (n : Z) (body : nat -> A -> option A) (a : A)
  : option A :=
  for_from 0 (Z.to_nat n) body a.

(** ** The interfaces the file is compiled against *)

(** p256-m.h: the curve engine.  A result code of 0 is success.  Output
    parameters are returned as the bytes the engine writes at the output
    pointer; the laws bound them by the size of the C parameter.  The
    engine draws randomness from the Zenroom context, whose generator
    state is [rng]. *)
Class CurveEngine := {
  rng : Type;
  p256_gen_keypair : rng -> option octet -> Z * list byte * list byte * rng;
  p256_publickey : list byte -> Z * list byte;
  p256_validate_pubkey : list byte -> Z;
  p256_uncompress_publickey : list byte -> Z * list byte;
  p256_compress_publickey : list byte -> Z * list byte;
  p256_ecdsa_sign :
    rng -> option octet -> list byte -> list byte -> Z -> Z * list byte * rng;
  p256_ecdsa_verify : list byte -> list byte -> list byte -> Z -> Z;
  gen_keypair_priv_size : forall r k,
    (length (snd (fst (fst (p256_gen_keypair r k)))) <= 32)%nat;
  gen_keypair_pub_size : forall r k,
    (length (snd (fst (p256_gen_keypair r k))) <= 64)%nat;
  publickey_size : forall sk, (length (snd (p256_publickey sk)) <= 64)%nat;
  uncompress_size : forall c,
    (length (snd (p256_uncompress_publickey c)) <= 64)%nat;
  compress_size : forall pk,
    (length (snd (p256_compress_publickey pk)) <= 33)%nat;
  ecdsa_sign_size : forall r k sk h hlen,
    (length (snd (fst (p256_ecdsa_sign r k sk h hlen))) <= 64)%nat
}.

(** The SHA-256 primitive (Milagro's hash256).  [HASH256_process] takes
    an int of which it uses the low eight bits: a byte. *)
Class Hash256 := {
  hash256 : Type;
  HASH256_init : hash256;
  HASH256_process : hash256 -> byte -> hash256;
  HASH256_hash : hash256 -> list byte;
  HASH256_hash_size : forall sh, length (HASH256_hash sh) = 32%nat
}.

(** zen_octet.h: the buffer behind a new octet of a requested size.  Its
    content is whatever the allocator left there; it holds at least the
    requested number of bytes. *)
Class OctetAllocator := {
  o_fresh : Z -> list byte;
  o_fresh_size : forall n, (Z.to_nat n <= length (o_fresh n))%nat
}.

(** ** Error vocabulary of the specification *)

Inductive p256_error :=
| InvalidKeyLength
| InvalidEncoding
| InvalidSecretKey
| InvalidSignatureLength
| DecompressionFailed
| CompressionFailed
| DerivationFailed
| SigningFailed
| KeyGenerationFailed
| AllocationFailed.

(** The messages of the C file, by the error of the specification they
    stand for. *)
Definition error_messages : list (string * p256_error) :=
  [ ("Invalid public key length", InvalidKeyLength);
    ("Invalid long public key prefix: 0x04 expected", InvalidEncoding);
    ("Invalid compressed public key prefix: 0x02 or 0x03 expected", InvalidEncoding);
    ("Invalid size for ECDSA secret key", InvalidSecretKey);
    ("Invalid size for P256 secret key", InvalidSecretKey);
    ("Invalid size for P256 signature", InvalidSignatureLength);
    ("Could not compress public key", CompressionFailed);
    ("Could not generate public key", DerivationFailed);
    ("Could not sign message", SigningFailed);
    ("Could not allocate public key", AllocationFailed);
    ("Could not allocate raw public key", AllocationFailed);
    ("Could not allocate secret key", AllocationFailed);
    ("Could not allocate message", AllocationFailed);
    ("Could not allocate signature", AllocationFailed);
    ("Could not allocate ephemeral key", AllocationFailed);
    ("Could not create x coordinate", AllocationFailed);
    ("Could not create y coordinate", AllocationFailed);
    ("Could not create compressed public key", AllocationFailed) ].

Fixpoint assoc_message (tbl : list (string * p256_error)) (msg : string)
  : option p256_error :=
  match tbl with
  | [] => None
  | (m, e) :: tbl' => if String.eqb m msg then Some e else assoc_message tbl' msg
  end.

Definition error_of_message (msg : string) : option p256_error :=
  assoc_message error_messages msg.

(** ** The Lua state and the C control flow *)

Section Binding.
Context {E : CurveEngine} {H : Hash256} {A : OctetAllocator}.

(** Values on the Lua stack.  An octet userdata is held by the stack
    slot; C code that keeps the pointer returned by [o_new] writes
    through to that slot. *)
Inductive lval :=
| LNil
| LBool (b : bool)
| LOctet (o : octet).

(** One entry per call into p256-m, with the bytes and octets passed. *)
Inductive engine_call :=
| CallGenKeypair (k : option octet)
| CallPublickey (sk : list byte)
| CallValidatePubkey (pk : list byte)
| CallUncompress (compressed : list byte)
| CallCompress (pk : list byte)
| CallEcdsaSign (k : option octet) (sk hash : list byte) (hlen : Z)
| CallEcdsaVerify (sig pk hash : list byte) (hlen : Z).

(** [stack]: the frame of the running C function, bottom (argument 1)
    first.  [avail]: how many more octets the allocator can hand out.
    [zrng]: the generator of the Zenroom context.  [calls]: the log of
    engine calls so far. *)
Record lua_State := LuaState {
  stack : list lval;
  avail : nat;
  zrng : rng;
  calls : list engine_call
}.

Definition with_stack (st : list lval) (L : lua_State) : lua_State :=
  {| stack := st; avail := avail L; zrng := zrng L; calls := calls L |}.
Definition with_avail (n : nat) (L : lua_State) : lua_State :=
  {| stack := stack L; avail := n; zrng := zrng L; calls := calls L |}.
Definition with_zrng (r : rng) (L : lua_State) : lua_State :=
  {| stack := stack L; avail := avail L; zrng := r; calls := calls L |}.
Definition log_call (c : engine_call) (L : lua_State) : lua_State :=
  {| stack := stack L; avail := avail L; zrng := zrng L; calls := calls L ++ [c] |}.

(** Where a piece of C code leaves control. *)
Inductive step (T : Type) :=
| Next (a : T) (L : lua_State)
| GotoEnd (failed_msg : option string) (L : lua_State)
| Thrown (msg : string) (L : lua_State)
| Undefined.
Global Arguments Next {T} a L.
Global Arguments GotoEnd {T} failed_msg L.
Global Arguments Thrown {T} msg L.
Global Arguments Undefined {T}.

Definition C (T : Type) : Type := lua_State -> step T.

#[local] Instance C_ret : MRet C := fun T (a : T) L => Next a L.
#[local] Instance C_bind : MBind C := fun T U (f : T -> C U) (m : C T) L =>
  match m L with
  | Next a L' => f a L'
  | GotoEnd fm L' => GotoEnd fm L'
  | Thrown msg L' => Thrown msg L'
  | Undefined => Undefined
  end.

(** [goto end], carrying the current value of the local [failed_msg]. *)
Definition goto_end {T} (failed_msg : option string) : C T :=
  fun L => GotoEnd failed_msg L.

(** Control as it reaches the label [end:]: by falling through
    ([failed_msg] is still NULL, every assignment to it being followed by
    a goto) or by [goto end]. *)
Definition catch_end (body : C unit) : C (option string) := fun L =>
  match body L with
  | Next _ L' => Next None L'
  | GotoEnd fm L' => Next fm L'
  | Thrown msg L' => Thrown msg L'
  | Undefined => Undefined
  end.

(** Undefined behaviour of a buffer access. *)
Definition ub {T} (x : option T) : C T := fun L =>
  match x with
  | Some a => Next a L
  | None => Undefined
  end.

(** Modelled from the spec: BEGIN, END and THROW are macros of
    zen_error.h, which is not part of this file.  BEGIN only traces.
    THROW raises the message as a Lua error: the failure is surfaced to
    the caller and nothing after it runs.  END(n) returns the [n] values
    on top of the stack; returning more values than the frame holds is
    outside the Lua API. *)
Definition BEGIN : C unit := mret tt.

Definition THROW {T} (msg : string) : C T := fun L => Thrown msg L.

Definition END (n : nat) : C (list lval) := fun L =>
  if decide (n <= length (stack L))%nat
  then Next (drop (length (stack L) - n) (stack L)) L
  else Undefined.

(** What the Lua caller of a C function observes. *)
Inductive reply :=
| Returns (vals : list lval) (L : lua_State)
| Raises (msg : string) (L : lua_State)
| Crashes.

Definition lua_CFunction : Type := lua_State -> reply.

Definition run (f : C (list lval)) : lua_CFunction := fun L =>
  match f L with
  | Next vals L' => Returns vals L'
  | Thrown msg L' => Raises msg L'
  | GotoEnd _ _ => Crashes
  | Undefined => Crashes
  end.

(** *** The Lua API used by the file *)

Definition lua_gettop : C Z := fun L => Next (Z.of_nat (length (stack L))) L.

Definition lua_push (v : lval) : C unit := fun L =>
  Next tt (with_stack (stack L ++ [v]) L).

Definition lua_pushnil : C unit := lua_push LNil.
Definition lua_pushboolean (b : bool) : C unit := lua_push (LBool b).

(** *** zen_octet.h *)

(** Modelled from the spec: [o_arg] is declared in zen_octet.h, which is
    not part of this file.  It hands out the octet passed at the given
    argument position, and NULL when there is none. *)
Definition o_arg (pos : Z) : C (option octet) := fun L =>
  Next (if decide (1 <= pos)
        then match stack L !! Z.to_nat (pos - 1) with
             | Some (LOctet o) => Some o
             | _ => None
             end
        else None) L.

(** Modelled from the spec: [o_alloc] (zen_octet.h) gives a new empty
    octet that only C sees, or NULL when the allocator is exhausted. *)
Definition o_alloc (size : Z) : C (option octet) := fun L =>
  match avail L with
  | O => Next None L
  | S n => Next (Some {| val := o_fresh size; len := 0 |}) (with_avail n L)
  end.

(** Modelled from the spec: [o_new] (zen_octet.h) gives a new empty octet
    and pushes it on the Lua stack; the pointer is the slot.  NULL when
    the allocator is exhausted. *)
Definition o_new (size : Z) : C (option nat) := fun L =>
  match avail L with
  | O => Next None L
  | S n =>
      Next (Some (length (stack L)))
           (with_avail n
              (with_stack (stack L ++ [LOctet {| val := o_fresh size; len := 0 |}]) L))
  end.

(** [o_free] releases a buffer; the embedding does not track released
    memory. *)
Definition o_free : C unit := mret tt.

(** [p->len = n] for an octet made by [o_new]. *)
Definition set_len (p : option nat) (n : Z) : C unit := fun L =>
  match p with
  | Some slot =>
      match stack L !! slot with
      | Some (LOctet o) =>
          Next tt (with_stack (<[slot := LOctet {| val := val o; len := n |}]> (stack L)) L)
      | _ => Undefined
      end
  | None => Undefined
  end.

(** [p->val] as an rvalue. *)
Definition get_val (p : option nat) : C (list byte) := fun L =>
  match p with
  | Some slot =>
      match stack L !! slot with
      | Some (LOctet o) => Next (val o) L
      | _ => Undefined
      end
  | None => Undefined
  end.

(** Stores into the buffer [p->val]. *)
Definition set_val (p : option nat) (v : list byte) : C unit := fun L =>
  match p with
  | Some slot =>
      match stack L !! slot with
      | Some (LOctet o) =>
          Next tt (with_stack (<[slot := LOctet {| val := v; len := len o |}]> (stack L)) L)
      | _ => Undefined
      end
  | None => Undefined
  end.

(** [if (!x) { failed_msg = msg; goto end; }] *)
Definition nonnull {T} (x : option T) (msg : string) : C T :=
  match x with
  | Some a => mret a
  | None => goto_end (Some msg)
  end.

(** A local array; C leaves its content unspecified and the file never
    reads one before the engine or the hash has filled it. *)
Definition local_array (n : Z) : list byte := replicate (Z.to_nat n) x00.

(** The macro ASSERT_OCT_LEN. *)
Definition ASSERT_OCT_LEN (oct : octet) (size : Z) (msg : string) : C unit :=
  if decide (len oct <> size)
  then lua_pushnil;; goto_end (Some msg)
  else mret tt.

(** *** p256-m.h: calls into the engine, logged *)

Definition call_gen_keypair (k : option octet) : C (Z * list byte * list byte) :=
  fun L =>
    let '(ret, priv, pub, r) := p256_gen_keypair (zrng L) k in
    Next (ret, priv, pub) (with_zrng r (log_call (CallGenKeypair k) L)).

Definition call_publickey (sk : list byte) : C (Z * list byte) := fun L =>
  Next (p256_publickey sk) (log_call (CallPublickey sk) L).

Definition call_validate_pubkey (pk : list byte) : C Z := fun L =>
  Next (p256_validate_pubkey pk) (log_call (CallValidatePubkey pk) L).

Definition call_uncompress_publickey (c : list byte) : C (Z * list byte) := fun L =>
  Next (p256_uncompress_publickey c) (log_call (CallUncompress c) L).

Definition call_compress_publickey (pk : list byte) : C (Z * list byte) := fun L =>
  Next (p256_compress_publickey pk) (log_call (CallCompress pk) L).

Definition call_ecdsa_sign (k : option octet) (sk hash : list byte) (hlen : Z)
  : C (Z * list byte) := fun L =>
    let '(ret, sig, r) := p256_ecdsa_sign (zrng L) k sk hash hlen in
    Next (ret, sig) (with_zrng r (log_call (CallEcdsaSign k sk hash hlen) L)).

Definition call_ecdsa_verify (sig pk hash : list byte) (hlen : Z) : C Z := fun L =>
  Next (p256_ecdsa_verify sig pk hash hlen)
       (log_call (CallEcdsaVerify sig pk hash hlen) L).

(** The buffer behind an octet of [size] bytes after [bytes] were written
    at its start, with its length set to [size]. *)
Definition filled (size : Z) (bytes : list byte) : octet :=
  {| val := bytes ++ drop (length bytes) (o_fresh size); len := size |}.

(** A coordinate octet as [p256_pub_xy] leaves it: [bytes] at the start
    of a new buffer requested with 33 bytes, a zero stored at index 33,
    and the length set to 32. *)
Definition coord_octet (bytes : list byte) : octet :=
  {| val := <[33%nat := x00]> (bytes ++ drop 32 (o_fresh (PK_COORD_SIZE + 1)));
     len := PK_COORD_SIZE |}.

(** Hash(message): the digest of the message bytes, fed in order. *)
Definition sha256_digest (msg : list byte) : list byte :=
  HASH256_hash (fold_left HASH256_process msg HASH256_init).

(** A key the normalizer must reject on sight: a length other than 64, 65
    or 33, a 65-byte key not starting with 0x04, or a 33-byte key starting
    with neither 0x02 nor 0x03. *)
Definition malformed_key (pk : octet) : Prop :=
  (len pk <> PK_SIZE /\ len pk <> UNCOMPRESSED_PK_SIZE /\ len pk <> COMPRESSED_PK_SIZE)
  \/ (len pk = UNCOMPRESSED_PK_SIZE /\
      exists b0, octet_bytes pk !! 0%nat = Some b0 /\ b0 <> x04)
  \/ (len pk = COMPRESSED_PK_SIZE /\
      exists b0, octet_bytes pk !! 0%nat = Some b0 /\ b0 <> x02 /\ b0 <> x03).

(** Modelled from the spec: the compression and decompression routines of
    the curve engine (p256-m) are not part of this file.  The spec says
    that compression keeps X and that Y is recoverable from X and the
    parity prefix: for a valid raw key the engine compresses X || Y to
    prefix || X, with prefix 0x02 or 0x03, and decompresses that string
    back to the same 64 bytes. *)
Definition engine_roundtrips (pk : list byte) : Prop :=
  exists prefix,
    (prefix = x02 \/ prefix = x03) /\
    p256_compress_publickey pk = (0, prefix :: take 32 pk) /\
    p256_uncompress_publickey (prefix :: take 32 pk) = (0, pk).

(** The values a call hands back to Lua, if it returns. *)
Definition returned (r : reply) : option (list lval) :=
  match r with
  | Returns vals _ => Some vals
  | _ => None
  end.

(** The state a call leaves behind, whether it returns or raises. *)
Definition final_state (r : reply) : option lua_State :=
  match r with
  | Returns _ L' => Some L'
  | Raises _ L' => Some L'
  | Crashes => None
  end.

(** A reply that carries a key pair: a 32-byte secret and a 64-byte public
    key. *)
Definition returns_keypair (r : reply) : Prop :=
  exists sk pk L',
    r = Returns [LOctet sk; LOctet pk] L' /\
    length (octet_bytes sk) = 32%nat /\ length (octet_bytes pk) = 64%nat.

(** The common tail of the functions, from the label [end:] on:
    [if (failed_msg) THROW(failed_msg); END(n)]. *)
Definition at_end (n : nat) (failed_msg : option string) : lua_CFunction :=
  run (match failed_msg with
       | Some msg => THROW msg
       | None => mret tt
       end;;
       END n).

(** ** The functions of zen_p256.c *)

(** [allocate_raw_public_key(L, pk_pos, &res_pk, &failed_msg)].  The
    result is the returned int with the values left in the two output
    parameters, [None] where the function never assigned them (the callers
    initialise both to NULL). *)
Definition allocate_raw_public_key (pk_pos : Z)
  : C (Z * option octet * option string) :=
  pk ← o_arg pk_pos;
  match pk with
  | None => mret (1, None, Some "Could not allocate public key")
  | Some pk =>
      res_pk ← o_alloc PK_SIZE;
      match res_pk with
      | None =>
          o_free;;
          mret (1, None, Some "Could not allocate raw public key")
      | Some res_pk =>
          let res_pk := {| val := val res_pk; len := PK_SIZE |} in
          if decide (len pk = PK_SIZE) then
            v ← ub (for_upto PK_SIZE
                      (fun i v =>
                         match load (val pk) i with
                         | Some b => store v i b
                         | None => None
                         end) (val res_pk));
            o_free;;
            mret (0, Some {| val := v; len := len res_pk |}, None)
          else if decide (len pk = UNCOMPRESSED_PK_SIZE) then
            b0 ← ub (load (val pk) 0);
            if negb (Byte.eqb b0 x04) then
              o_free;;
              mret (1, Some res_pk,
                    Some "Invalid long public key prefix: 0x04 expected")
            else
              v ← ub (for_upto PK_SIZE
                        (fun i v =>
                         match load (val pk) (i + 1) with
                         | Some b => store v i b
                         | None => None
                         end)
                        (val res_pk));
              o_free;;
              mret (0, Some {| val := v; len := len res_pk |}, None)
          else if decide (len pk = COMPRESSED_PK_SIZE) then
            b0 ← ub (load (val pk) 0);
            if negb (Byte.eqb b0 x02) && negb (Byte.eqb b0 x03) then
              o_free;;
              mret (1, Some res_pk,
                    Some "Invalid compressed public key prefix: 0x02 or 0x03 expected")
            else
              c ← ub (read_bytes (val pk) COMPRESSED_PK_SIZE);
              '(res, out) ← call_uncompress_publickey c;
              v ← ub (write_bytes (val res_pk) out);
              o_free;;
              mret (res, Some {| val := v; len := len res_pk |}, None)
          else
            o_free;;
            mret (1, Some res_pk, Some "Invalid public key length")
      end
  end.

(** In [p256_keygen] and [p256_sign] the macro Z(L) fetches the Zenroom
    context; the engine reaches its generator through it ([zrng]). *)
Definition p256_keygen : lua_CFunction := run (
  BEGIN;;
  let pub := local_array PK_SIZE in
  sk ← o_new SK_SIZE;
  set_len sk SK_SIZE;;
  match sk with
  | None => THROW "Could not allocate secret key"
  | Some _ =>
      '(_, priv, pubout) ← call_gen_keypair None;
      v ← get_val sk;
      v ← ub (write_bytes v priv);
      set_val sk v;;
      _ ← ub (write_bytes pub pubout);
      mret tt
  end;;
  END 1).

Definition p256_pubgen : lua_CFunction := run (
  BEGIN;;
  failed_msg ← catch_end (
    sk ← o_arg 1;
    sk ← nonnull sk "Could not allocate secret key";
    ASSERT_OCT_LEN sk SK_SIZE "Invalid size for P256 secret key";;
    pk ← o_new PK_SIZE;
    _ ← nonnull pk "Could not allocate public key";
    set_len pk PK_SIZE;;
    skv ← ub (read_bytes (val sk) SK_SIZE);
    '(ret, out) ← call_publickey skv;
    v ← get_val pk;
    v ← ub (write_bytes v out);
    set_val pk v;;
    if decide (ret <> 0) then goto_end (Some "Could not generate public key")
    else mret tt);
  o_free;;
  match failed_msg with
  | Some msg => THROW msg
  | None => mret tt
  end;;
  END 1).

Definition p256_session : lua_CFunction := run (BEGIN;; END 1).

Definition p256_pubcheck : lua_CFunction := run (
  BEGIN;;
  failed_msg ← catch_end (
    '(ret, raw_pk, failed_msg) ← allocate_raw_public_key 1;
    if decide (ret <> 0) then goto_end failed_msg else
    raw_pk ← ub raw_pk;
    pkv ← ub (read_bytes (val raw_pk) PK_SIZE);
    r ← call_validate_pubkey pkv;
    lua_pushboolean (r =? 0));
  o_free;;
  match failed_msg with
  | Some msg => THROW msg
  | None => mret tt
  end;;
  END 1).

Definition p256_sign : lua_CFunction := run (
  BEGIN;;
  n_args ← lua_gettop;
  failed_msg ← catch_end (
    sk ← o_arg 1;
    sk ← nonnull sk "Could not allocate secret key";
    m ← o_arg 2;
    m ← nonnull m "Could not allocate message";
    ASSERT_OCT_LEN sk SK_SIZE "Invalid size for ECDSA secret key";;
    sha256 ← ub (for_upto (len m)
                   (fun i sh =>
                      match load (val m) i with
                      | Some b => Some (HASH256_process sh b)
                      | None => None
                      end)
                   HASH256_init);
    hash ← ub (write_bytes (local_array HASH_SIZE) (HASH256_hash sha256));
    sig ← o_new SIG_SIZE;
    _ ← nonnull sig "Could not allocate signature";
    set_len sig SIG_SIZE;;
    k ← (if decide (n_args > 2) then
           k ← o_arg 3;
           k ← nonnull k "Could not allocate ephemeral key";
           mret (Some k)
         else mret None);
    skv ← ub (read_bytes (val sk) SK_SIZE);
    hv ← ub (read_bytes hash HASH_SIZE);
    '(ret, out) ← call_ecdsa_sign k skv hv HASH_SIZE;
    v ← get_val sig;
    v ← ub (write_bytes v out);
    set_val sig v;;
    if decide (ret <> 0) then goto_end (Some "Could not sign message")
    else mret tt);
  o_free;; o_free;; o_free;;
  match failed_msg with
  | Some msg => THROW msg
  | None => mret tt
  end;;
  END 1).

Definition p256_verify : lua_CFunction := run (
  BEGIN;;
  failed_msg ← catch_end (
    '(ret, raw_pk, failed_msg) ← allocate_raw_public_key 1;
    if decide (ret <> 0) then goto_end failed_msg else
    m ← o_arg 2;
    m ← nonnull m "Could not allocate message";
    sig ← o_arg 3;
    sig ← nonnull sig "Could not allocate signature";
    ASSERT_OCT_LEN sig SIG_SIZE "Invalid size for P256 signature";;
    sha256 ← ub (for_upto (len m)
                   (fun i sh =>
                      match load (val m) i with
                      | Some b => Some (HASH256_process sh b)
                      | None => None
                      end)
                   HASH256_init);
    hash ← ub (write_bytes (local_array HASH_SIZE) (HASH256_hash sha256));
    sigv ← ub (read_bytes (val sig) SIG_SIZE);
    raw_pk ← ub raw_pk;
    pkv ← ub (read_bytes (val raw_pk) PK_SIZE);
    hv ← ub (read_bytes hash HASH_SIZE);
    r ← call_ecdsa_verify sigv pkv hv HASH_SIZE;
    lua_pushboolean (r =? 0));
  o_free;; o_free;; o_free;;
  match failed_msg with
  | Some msg => THROW msg
  | None => mret tt
  end;;
  END 1).

Definition p256_pub_xy : lua_CFunction := run (
  BEGIN;;
  failed_msg ← catch_end (
    '(ret, raw_pk, failed_msg) ← allocate_raw_public_key 1;
    if decide (ret <> 0) then goto_end failed_msg else
    raw_pk ← ub raw_pk;
    x ← o_new (PK_COORD_SIZE + 1);
    _ ← nonnull x "Could not create x coordinate";
    v ← get_val x;
    v ← ub (for_upto PK_COORD_SIZE
              (fun i v =>
                         match load (val raw_pk) i with
                         | Some b => store v i b
                         | None => None
                         end) v);
    v ← ub (store v (Z.to_nat (PK_COORD_SIZE + 1)) x00);
    set_val x v;;
    set_len x PK_COORD_SIZE;;
    y ← o_new (PK_COORD_SIZE + 1);
    _ ← nonnull y "Could not create y coordinate";
    v ← get_val y;
    v ← ub (for_upto PK_COORD_SIZE
              (fun i v =>
                         match load (val raw_pk) (Z.to_nat PK_COORD_SIZE + i) with
                         | Some b => store v i b
                         | None => None
                         end)
              v);
    v ← ub (store v (Z.to_nat (PK_COORD_SIZE + 1)) x00);
    set_val y v;;
    set_len y PK_COORD_SIZE);
  o_free;;
  match failed_msg with
  | Some msg => (THROW msg : C unit);; lua_pushnil
  | None => mret tt
  end;;
  END 2).

Definition p256_destroy : lua_CFunction := run (BEGIN;; END 0).

Definition p256_compress_pub : lua_CFunction := run (
  BEGIN;;
  failed_msg ← catch_end (
    '(ret, raw_pk, failed_msg) ← allocate_raw_public_key 1;
    if decide (ret <> 0) then goto_end failed_msg else
    raw_pk ← ub raw_pk;
    compressed_pk ← o_new COMPRESSED_PK_SIZE;
    _ ← nonnull compressed_pk "Could not create compressed public key";
    set_len compressed_pk COMPRESSED_PK_SIZE;;
    pkv ← ub (read_bytes (val raw_pk) PK_SIZE);
    '(ret, out) ← call_compress_publickey pkv;
    v ← get_val compressed_pk;
    v ← ub (write_bytes v out);
    set_val compressed_pk v;;
    if decide (ret <> 0) then goto_end (Some "Could not compress public key")
    else mret tt);
  o_free;;
  match failed_msg with
  | Some msg => THROW msg
  | None => mret tt
  end;;
  END 1).

(** The class table of [luaopen_p256]: the names Lua calls. *)
Definition p256_class : list (string * lua_CFunction) :=
  [ ("keygen", p256_keygen);
    ("pubgen", p256_pubgen);
    ("session", p256_session);
    ("checkpub", p256_pubcheck);
    ("pubcheck", p256_pubcheck);
    ("validate", p256_pubcheck);
    ("sign", p256_sign);
    ("verify", p256_verify);
    ("public_xy", p256_pub_xy);
    ("pubxy", p256_pub_xy);
    ("compress_public_key", p256_compress_pub) ].

(** ** What a call may change

    The engine routine a logged call went to, and the relation between
    the state before and after a piece of code that leaves the first [k]
    stack slots alone, allocates rather than frees, draws from the
    generator only when [draw] allows it, and calls only the engine
    routines listed in [rs]. *)

Inductive routine :=
| GenKeypair
| Publickey
| ValidatePubkey
| Uncompress
| Compress
| EcdsaSign
| EcdsaVerify.

Definition routine_of (c : engine_call) : routine :=
  match c with
  | CallGenKeypair _ => GenKeypair
  | CallPublickey _ => Publickey
  | CallValidatePubkey _ => ValidatePubkey
  | CallUncompress _ => Uncompress
  | CallCompress _ => Compress
  | CallEcdsaSign _ _ _ _ => EcdsaSign
  | CallEcdsaVerify _ _ _ _ => EcdsaVerify
  end.

Definition all_routines : list routine :=
  [GenKeypair; Publickey; ValidatePubkey; Uncompress; Compress; EcdsaSign; EcdsaVerify].

Definition frame (k : nat) (rs : list routine) (draw : bool) (L L' : lua_State)
  : Prop :=
  (k <= length (stack L'))%nat /\
  take k (stack L') = take k (stack L) /\
  (avail L' <= avail L)%nat /\
  (draw = false -> zrng L' = zrng L) /\
  exists new, calls L' = calls L ++ new /\ Forall (fun c => routine_of c ∈ rs) new.

(** [m] keeps the frame relation wherever it leaves control, and its
    result satisfies [post] when it falls through. *)
Definition respects (k : nat) (rs : list routine) (draw : bool) {T : Type}
    (post : T -> Prop) (m : C T) : Prop :=
  forall L, (k <= length (stack L))%nat ->
    match m L with
    | Next a L' => frame k rs draw L L' /\ post a
    | GotoEnd _ L' => frame k rs draw L L'
    | Thrown _ L' => frame k rs draw L L'
    | Undefined => True
    end.

(** The engine calls a function adds to the log all go to routines of
    [rs]. *)
Definition calls_only (rs : list routine) (f : lua_CFunction) : Prop :=
  forall L L',
    final_state (f L) = Some L' ->
    exists new, calls L' = calls L ++ new /\ Forall (fun c => routine_of c ∈ rs) new.

(** The method table of [luaopen_p256]. *)
Definition p256_methods : list (string * lua_CFunction) :=
  [ ("__gc", p256_destroy) ].

End Binding.

#[global] Existing Instances C_ret C_bind.

(** ** A test engine, a test hash and two allocators

    Concrete instances of the three interfaces, used to run the functions
    on explicit inputs.  The engine knows one P-256 key pair: the secret
    scalar 1 and its public key, the base point G of the curve. *)

Definition Gx : list byte :=
  [
    x6b; x17; xd1; xf2; xe1; x2c; x42; x47;
    xf8; xbc; xe6; xe5; x63; xa4; x40; xf2;
    x77; x03; x7d; x81; x2d; xeb; x33; xa0;
    xf4; xa1; x39; x45; xd8; x98; xc2; x96 ].

Definition Gy : list byte :=
  [
    x4f; xe3; x42; xe2; xfe; x1a; x7f; x9b;
    x8e; xe7; xeb; x4a; x7c; x0f; x9e; x16;
    x2b; xce; x33; x57; x6b; x31; x5e; xce;
    xcb; xb6; x40; x68; x37; xbf; x51; xf5 ].

Definition G_raw : list byte := Gx ++ Gy.
Definition G_uncompressed : list byte := x04 :: G_raw.
(** Gy is odd, so the compressed form of G starts with 0x03. *)
Definition G_compressed : list byte := x03 :: Gx.
Definition sk_one : list byte := replicate 31 x00 ++ [x01].

Fixpoint bytes_eqb (a b : list byte) : bool :=
  match a, b with
  | [], [] => true
  | x :: a', y :: b' => Byte.eqb x y && bytes_eqb a' b'
  | _, _ => false
  end.

(** The generator state counts the random draws still available; a draw
    from an exhausted generator fails.  The signature it produces is a
    fixed pattern that its verifier recognises. *)
Definition test_signature : list byte := replicate 64 x5a.

Definition test_gen_keypair (r : nat) (k : option octet)
  : Z * list byte * list byte * nat :=
  match r with
  | O => (-1, [], [], O)
  | S r' => (0, sk_one, G_raw, r')
  end.

Definition test_publickey (sk : list byte) : Z * list byte :=
  if bytes_eqb sk sk_one then (0, G_raw) else (-1, []).

Definition test_validate_pubkey (pk : list byte) : Z :=
  if bytes_eqb pk G_raw then 0 else -1.

Definition test_uncompress_publickey (c : list byte) : Z * list byte :=
  if bytes_eqb c G_compressed then (0, G_raw) else (-1, []).

Definition test_compress_publickey (pk : list byte) : Z * list byte :=
  if bytes_eqb pk G_raw then (0, G_compressed) else (-1, []).

Definition test_ecdsa_sign (r : nat) (k : option octet) (sk hash : list byte) (hlen : Z)
  : Z * list byte * nat :=
  match k, r with
  | Some _, _ => if bytes_eqb sk sk_one then (0, test_signature, r) else (-1, [], r)
  | None, O => (-1, [], O)
  | None, S r' => if bytes_eqb sk sk_one then (0, test_signature, r') else (-1, [], r')
  end.

Definition test_ecdsa_verify (sig pk hash : list byte) (hlen : Z) : Z :=
  if bytes_eqb sig test_signature && bytes_eqb pk G_raw then 0 else -1.

Lemma test_gen_keypair_priv_size r k :
  (length (snd (fst (fst (test_gen_keypair r k)))) <= 32)%nat.
Proof. destruct r; vm_compute; lia. Qed.

Lemma test_gen_keypair_pub_size r k :
  (length (snd (fst (test_gen_keypair r k))) <= 64)%nat.
Proof. destruct r; vm_compute; lia. Qed.

Lemma test_publickey_size sk : (length (snd (test_publickey sk)) <= 64)%nat.
Proof. unfold test_publickey. destruct (bytes_eqb sk sk_one); vm_compute; lia. Qed.

Lemma test_uncompress_size c :
  (length (snd (test_uncompress_publickey c)) <= 64)%nat.
Proof.
  unfold test_uncompress_publickey.
  destruct (bytes_eqb c G_compressed); vm_compute; lia.
Qed.

Lemma test_compress_size pk :
  (length (snd (test_compress_publickey pk)) <= 33)%nat.
Proof.
  unfold test_compress_publickey.
  destruct (bytes_eqb pk G_raw); vm_compute; lia.
Qed.

Lemma test_ecdsa_sign_size r k sk h hlen :
  (length (snd (fst (test_ecdsa_sign r k sk h hlen))) <= 64)%nat.
Proof.
  unfold test_ecdsa_sign.
  destruct k, r; destruct (bytes_eqb sk sk_one); vm_compute; lia.
Qed.

Definition test_engine : CurveEngine :=
  {| rng := nat;
     p256_gen_keypair := test_gen_keypair;
     p256_publickey := test_publickey;
     p256_validate_pubkey := test_validate_pubkey;
     p256_uncompress_publickey := test_uncompress_publickey;
     p256_compress_publickey := test_compress_publickey;
     p256_ecdsa_sign := test_ecdsa_sign;
     p256_ecdsa_verify := test_ecdsa_verify;
     gen_keypair_priv_size := test_gen_keypair_priv_size;
     gen_keypair_pub_size := test_gen_keypair_pub_size;
     publickey_size := test_publickey_size;
     uncompress_size := test_uncompress_size;
     compress_size := test_compress_size;
     ecdsa_sign_size := test_ecdsa_sign_size |}.

(** A stand-in for SHA-256 with the same interface: it keeps the bytes it
    is fed, newest first, and its digest is the first 32 of them in
    feeding order, padded with zeros. *)
Definition test_hash_digest (sh : list byte) : list byte :=
  take 32 (rev sh ++ replicate 32 x00).

Lemma test_hash_size sh : length (test_hash_digest sh) = 32%nat.
Proof.
  unfold test_hash_digest.
  rewrite length_take, length_app, length_replicate. lia.
Qed.

Definition test_hash : Hash256 :=
  {| hash256 := list byte;
     HASH256_init := [];
     HASH256_process := fun sh b => b :: sh;
     HASH256_hash := test_hash_digest;
     HASH256_hash_size := test_hash_size |}.

(** An allocator that pads every buffer with 15 spare bytes, and one that
    gives exactly the requested size. *)
Lemma padded_fresh_size n : (Z.to_nat n <= length (replicate (Z.to_nat n + 15) x00))%nat.
Proof. rewrite length_replicate. lia. Qed.

Definition padded_allocator : OctetAllocator :=
  {| o_fresh := fun n => replicate (Z.to_nat n + 15) x00;
     o_fresh_size := padded_fresh_size |}.

Lemma exact_fresh_size n : (Z.to_nat n <= length (replicate (Z.to_nat n) x00))%nat.
Proof. rewrite length_replicate. lia. Qed.

Definition exact_allocator : OctetAllocator :=
  {| o_fresh := fun n => replicate (Z.to_nat n) x00;
     o_fresh_size := exact_fresh_size |}.

(** A Lua call: the function runs on a frame holding its arguments. *)
Definition test_state (args : list lval) (slots r : nat) : @lua_State test_engine :=
  @LuaState test_engine args slots r [].

(** The error, in the specification's vocabulary, that a run of the
    normalizer reports. *)
Definition failure_of (r : @step test_engine (Z * option octet * option string))
  : option p256_error :=
  match r with
  | Next (_, _, Some msg) _ => error_of_message msg
  | _ => None
  end.

(** Sample arguments. *)
Definition G_raw_octet : octet := octet_of_bytes G_raw.
Definition G_uncompressed_octet : octet := octet_of_bytes G_uncompressed.
Definition G_compressed_octet : octet := octet_of_bytes G_compressed.
Definition sk_one_octet : octet := octet_of_bytes sk_one.
Definition empty_message : octet := octet_of_bytes [].
Definition test_signature_octet : octet := octet_of_bytes test_signature.
(** 64 bytes that the test verifier does not accept. *)
Definition forged_signature_octet : octet := octet_of_bytes (replicate 64 x00).
(** A compressed encoding whose X is not a field element (X >= p). *)
Definition off_curve_compressed : octet := octet_of_bytes (x02 :: replicate 32 xff).
Definition short_secret : octet := octet_of_bytes (replicate 16 x11).
Definition one_byte_ephemeral : octet := octet_of_bytes [x07].
(** The secret scalar 1 in a buffer with a spare byte after it. *)
Definition sk_one_slack : octet := {| val := sk_one ++ [xff]; len := 32 |}.
(** A frame for verify: the raw key G, the empty message, a signature
    the test verifier rejects. *)
Definition verify_frame_args : list lval :=
  [LOctet G_raw_octet; LOctet empty_message; LOctet forged_signature_octet].

(** * Properties *)

Section Properties.
Context {E : CurveEngine} {H : Hash256} {A : OctetAllocator}.

(** ** Loops over buffers *)

Lemma for_from_ext {T : Type} (f g : nat -> T -> option T) n i a :
  (forall j x, f j x = g j x) -> for_from i n f a = for_from i n g a.
Proof.
  intros Hfg. revert i a.
  induction n as [|n IH]; intros i a; simpl; [done|].
  rewrite Hfg. destruct (g i a); [apply IH | done].
Qed.

(** The copy loops: [dst[j] = src[j + off]] for [j] from [i] on. *)
Lemma for_from_copy (src : list byte) (off n i : nat) (dst : list byte) :
  (i + n <= length dst)%nat ->
  (i + off + n <= length src)%nat ->
  for_from i n
    (fun j v => match load src (j + off) with
                | Some b => store v j b
                | None => None
                end) dst
  = Some (take i dst ++ take n (drop (i + off) src) ++ drop (i + n) dst).
Proof.
  revert i dst.
  induction n as [|n IH]; intros i dst Hdst Hsrc; simpl.
  - by rewrite Nat.add_0_r, take_drop.
  - destruct (lookup_lt_is_Some_2 src (i + off)) as [b Hb]; [lia|].
    unfold load at 1. rewrite Hb. simpl.
    unfold store at 1. rewrite decide_True by lia.
    rewrite IH by (rewrite ?length_insert; lia).
    f_equal.
    rewrite (take_S_r _ _ b) by (apply list_lookup_insert_eq; lia).
    rewrite take_insert_ge by lia.
    rewrite drop_insert_lt by lia.
    rewrite (drop_S src b (i + off)) by done.
    rewrite <- app_assoc. simpl.
    by replace (i + S n)%nat with (S (i + n)) by lia.
Qed.

Lemma copy_loop (src : list byte) (off : nat) (n : Z) (dst : list byte)
    (body : nat -> list byte -> option (list byte)) :
  (forall j v, body j v = match load src (j + off) with
                          | Some b => store v j b
                          | None => None
                          end) ->
  (Z.to_nat n <= length dst)%nat ->
  (off + Z.to_nat n <= length src)%nat ->
  for_upto n body dst
  = Some (take (Z.to_nat n) (drop off src) ++ drop (Z.to_nat n) dst).
Proof.
  intros Hbody Hdst Hsrc. unfold for_upto.
  rewrite (for_from_ext _ _ _ _ _ Hbody).
  rewrite for_from_copy by lia. by rewrite take_0.
Qed.

(** The hashing loop feeds the bytes in buffer order. *)
Lemma for_from_process (v : list byte) n i (sh : hash256) :
  (i + n <= length v)%nat ->
  for_from i n
    (fun j sh => match load v j with
                 | Some b => Some (HASH256_process sh b)
                 | None => None
                 end) sh
  = Some (fold_left HASH256_process (take n (drop i v)) sh).
Proof.
  revert i sh.
  induction n as [|n IH]; intros i sh Hlen; simpl; [done|].
  destruct (lookup_lt_is_Some_2 v i) as [b Hb]; [lia|].
  unfold load at 1. rewrite Hb. simpl.
  rewrite IH by lia.
  by rewrite (drop_S v b i).
Qed.

(** ** Stepping through the control flow *)

Ltac sizes :=
  unfold PK_SIZE, UNCOMPRESSED_PK_SIZE, COMPRESSED_PK_SIZE, PK_COORD_SIZE,
    SK_SIZE, HASH_SIZE, SIG_SIZE in *.

Lemma bind_next {T U : Type} (m : C T) (f : T -> C U) (L L' : lua_State) (a : T) :
  m L = Next a L' -> (m ≫= f) L = f a L'.
Proof. intros Hm. unfold mbind, C_bind. by rewrite Hm. Qed.

Lemma bind_ub {T U : Type} (x : option T) (f : T -> C U) (L : lua_State) (a : T) :
  x = Some a -> (ub x ≫= f) L = f a L.
Proof. intros ->. done. Qed.

Lemma read_bytes_some (buf : list byte) (k : Z) :
  (Z.to_nat k <= length buf)%nat -> read_bytes buf k = Some (take (Z.to_nat k) buf).
Proof. intros Hk. unfold read_bytes. by rewrite decide_True. Qed.

Lemma store_some (buf : list byte) (i : nat) (b : byte) :
  (i < length buf)%nat -> store buf i b = Some (<[i := b]> buf).
Proof. intros Hi. unfold store. by rewrite decide_True. Qed.

Lemma write_bytes_some (buf out : list byte) :
  (length out <= length buf)%nat ->
  write_bytes buf out = Some (out ++ drop (length out) buf).
Proof. intros Hk. unfold write_bytes. by rewrite decide_True. Qed.

(** ** The normalizer, case by case *)

Section Normalizer.
Variables (L : lua_State) (pk_pos : Z) (pk : octet) (n : nat).
Hypothesis Hpos : 1 <= pk_pos.
Hypothesis Harg : stack L !! Z.to_nat (pk_pos - 1) = Some (LOctet pk).
Hypothesis Hwf : octet_wf pk.
Hypothesis Havail : avail L = S n.

(** Past [o_arg] and [o_alloc], to the dispatch on the length. *)
Ltac enter_normalizer :=
  unfold allocate_raw_public_key;
  unfold mbind at 1; unfold C_bind at 1; unfold o_arg at 1;
  rewrite decide_True by done; rewrite Harg;
  unfold mbind at 1; unfold C_bind at 1; unfold o_alloc at 1;
  rewrite Havail; cbv zeta.

Lemma normalize_raw :
  len pk = PK_SIZE ->
  allocate_raw_public_key pk_pos L
  = Next (0, Some (filled PK_SIZE (octet_bytes pk)), None) (with_avail n L).
Proof.
  intros Hlen. destruct Hwf as [_ Hcap]. rewrite Hlen in Hcap.
  enter_normalizer. rewrite decide_True by done.
  erewrite bind_ub; cycle 1.
  { apply (copy_loop (val pk) 0).
    - intros j v. by rewrite Nat.add_0_r.
    - pose proof (o_fresh_size PK_SIZE). simpl val. sizes. lia.
    - sizes. lia. }
  unfold filled, octet_bytes. rewrite Hlen.
  by rewrite length_take_le by done.
Qed.

Lemma normalize_uncompressed_bad_prefix (b0 : byte) :
  len pk = UNCOMPRESSED_PK_SIZE ->
  val pk !! 0%nat = Some b0 ->
  b0 <> x04 ->
  allocate_raw_public_key pk_pos L
  = Next (1, Some (filled PK_SIZE []),
          Some "Invalid long public key prefix: 0x04 expected")
         (with_avail n L).
Proof.
  intros Hlen Hb0 Hne.
  enter_normalizer.
  rewrite decide_False by (rewrite Hlen; done).
  rewrite decide_True by done.
  erewrite bind_ub by exact Hb0.
  destruct (Byte.eqb b0 x04) eqn:Heq; [|done].
  apply Byte.byte_dec_bl in Heq. done.
Qed.

Lemma normalize_uncompressed :
  len pk = UNCOMPRESSED_PK_SIZE ->
  val pk !! 0%nat = Some x04 ->
  allocate_raw_public_key pk_pos L
  = Next (0, Some (filled PK_SIZE (drop 1 (octet_bytes pk))), None)
         (with_avail n L).
Proof.
  intros Hlen Hb0. destruct Hwf as [_ Hcap]. rewrite Hlen in Hcap.
  enter_normalizer.
  rewrite decide_False by (rewrite Hlen; done).
  rewrite decide_True by done.
  erewrite bind_ub by exact Hb0.
  change (negb (Byte.eqb x04 x04)) with false. cbv iota.
  erewrite bind_ub; cycle 1.
  { apply (copy_loop (val pk) 1).
    - done.
    - pose proof (o_fresh_size PK_SIZE). simpl val. sizes. lia.
    - sizes. lia. }
  unfold filled, octet_bytes. rewrite Hlen.
  rewrite (take_drop_commute (val pk) _ 1).
  change (1 + Z.to_nat PK_SIZE)%nat with (Z.to_nat UNCOMPRESSED_PK_SIZE).
  rewrite length_drop, length_take_le by done.
  done.
Qed.

Lemma normalize_compressed_bad_prefix (b0 : byte) :
  len pk = COMPRESSED_PK_SIZE ->
  val pk !! 0%nat = Some b0 ->
  b0 <> x02 -> b0 <> x03 ->
  allocate_raw_public_key pk_pos L
  = Next (1, Some (filled PK_SIZE []),
          Some "Invalid compressed public key prefix: 0x02 or 0x03 expected")
         (with_avail n L).
Proof.
  intros Hlen Hb0 Hne2 Hne3.
  enter_normalizer.
  rewrite !decide_False by (rewrite Hlen; done).
  rewrite decide_True by done.
  erewrite bind_ub by exact Hb0.
  destruct (Byte.eqb b0 x02) eqn:Heq2.
  { apply Byte.byte_dec_bl in Heq2. done. }
  destruct (Byte.eqb b0 x03) eqn:Heq3.
  { apply Byte.byte_dec_bl in Heq3. done. }
  done.
Qed.

Lemma normalize_compressed (b0 : byte) :
  len pk = COMPRESSED_PK_SIZE ->
  val pk !! 0%nat = Some b0 ->
  b0 = x02 \/ b0 = x03 ->
  let res := p256_uncompress_publickey (octet_bytes pk) in
  allocate_raw_public_key pk_pos L
  = Next (fst res, Some (filled PK_SIZE (snd res)), None)
         (log_call (CallUncompress (octet_bytes pk)) (with_avail n L)).
Proof.
  intros Hlen Hb0 Hpre. cbv zeta. destruct Hwf as [_ Hcap].
  assert (Hbytes : read_bytes (val pk) COMPRESSED_PK_SIZE = Some (octet_bytes pk)).
  { unfold octet_bytes. rewrite Hlen. apply read_bytes_some. by rewrite <- Hlen. }
  enter_normalizer.
  rewrite !decide_False by (rewrite Hlen; done).
  rewrite decide_True by done.
  erewrite bind_ub by exact Hbytes || exact Hb0.
  replace (negb (Byte.eqb b0 x02) && negb (Byte.eqb b0 x03)) with false
    by (destruct Hpre as [-> | ->]; done).
  erewrite bind_ub by exact Hbytes.
  erewrite bind_next by reflexivity.
  pose proof (uncompress_size (octet_bytes pk)) as Hout.
  destruct (p256_uncompress_publickey (octet_bytes pk)) as [ret out].
  erewrite bind_ub; cycle 1.
  { apply write_bytes_some.
    pose proof (o_fresh_size PK_SIZE) as Hfresh.
    simpl snd in *. simpl val. sizes. lia. }
  done.
Qed.

Lemma normalize_bad_length :
  len pk <> PK_SIZE -> len pk <> UNCOMPRESSED_PK_SIZE -> len pk <> COMPRESSED_PK_SIZE ->
  allocate_raw_public_key pk_pos L
  = Next (1, Some (filled PK_SIZE []), Some "Invalid public key length")
         (with_avail n L).
Proof.
  intros H64 H65 H33.
  enter_normalizer.
  by rewrite !decide_False by done.
Qed.

End Normalizer.

(** ** Returning the top of the stack *)

Lemma END_1 (L : lua_State) (st : list lval) (v : lval) :
  stack L = st ++ [v] -> END 1 L = Next [v] L.
Proof.
  intros Hst. unfold END. rewrite Hst, length_app. simpl.
  rewrite decide_True by lia.
  by rewrite drop_app_length' by lia.
Qed.

Lemma END_2 (L : lua_State) (st : list lval) (v w : lval) :
  stack L = st ++ [v; w] -> END 2 L = Next [v; w] L.
Proof.
  intros Hst. unfold END. rewrite Hst, length_app. simpl.
  rewrite decide_True by lia.
  by rewrite drop_app_length' by lia.
Qed.

Lemma at_end_raises (k : nat) (msg : string) (L : lua_State) :
  at_end k (Some msg) L = Raises msg L.
Proof. done. Qed.

(** ** What the normalizer can leave behind *)

Lemma for_from_length (f : nat -> list byte -> option (list byte)) n i dst v :
  (forall j x y, f j x = Some y -> length y = length x) ->
  for_from i n f dst = Some v -> length v = length dst.
Proof.
  intros Hf. revert i dst.
  induction n as [|n IH]; intros i dst; simpl.
  - by intros [= ->].
  - destruct (f i dst) as [dst'|] eqn:Hstep; [|done].
    intros Hrest. rewrite (IH _ _ Hrest). by eapply Hf.
Qed.

Lemma copy_body_length (src : list byte) (g : nat -> nat) j x y :
  match load src (g j) with
  | Some b => store x j b
  | None => None
  end = Some y -> length y = length x.
Proof.
  destruct (load src (g j)) as [b|]; simpl; [|done].
  unfold store. case_decide; [|done].
  intros [= <-]. by rewrite length_insert.
Qed.

Lemma write_bytes_length (buf out v : list byte) :
  write_bytes buf out = Some v -> length v = length buf.
Proof.
  unfold write_bytes. case_decide; [|done].
  intros [= <-]. rewrite length_app, length_drop. lia.
Qed.

Lemma normalize_shape (pk_pos : Z) (L L' : lua_State) ret raw fm :
  allocate_raw_public_key pk_pos L = Next (ret, raw, fm) L' ->
  stack L' = stack L /\ zrng L' = zrng L /\ (avail L' <= avail L)%nat /\
  (forall r, raw = Some r ->
     len r = PK_SIZE /\ (Z.to_nat PK_SIZE <= length (val r))%nat) /\
  (ret = 0 -> fm = None /\ is_Some raw) /\
  (calls L' = calls L \/ exists c, calls L' = calls L ++ [CallUncompress c]).
Proof.
  pose proof (o_fresh_size PK_SIZE) as Hfresh.
  unfold allocate_raw_public_key, mbind, C_bind, o_arg, o_alloc, o_free,
    call_uncompress_publickey, mret, C_ret, ub.
  intros Hrun.
  repeat (case_match; simplify_eq); simpl;
    repeat split; try done; try lia; eauto.
  all: simplify_eq; simpl; try done.
  all: try match goal with
    | Hloop : for_upto _ _ _ = Some ?a |- _ =>
        unfold for_upto in Hloop;
        apply for_from_length in Hloop;
        [ by rewrite Hloop | intros j x y; apply (copy_body_length _ (fun j => _)) ]
    | Hw : write_bytes _ _ = Some ?a |- _ =>
        apply write_bytes_length in Hw; by rewrite Hw
    end.
Qed.

(** ** The operations, once the key is normalized *)

Ltac unfold_c :=
  unfold run, at_end, catch_end, BEGIN, o_free, nonnull, ASSERT_OCT_LEN,
    lua_pushnil, lua_pushboolean, lua_push, THROW, ub, o_arg, o_new, set_len,
    get_val, set_val, lua_gettop, call_gen_keypair, call_publickey,
    call_validate_pubkey, call_compress_publickey, call_ecdsa_sign,
    call_ecdsa_verify, goto_end, mbind, C_bind, mret, C_ret.

Lemma slot_lookup (st : list lval) (v : lval) : (st ++ [v]) !! length st = Some v.
Proof. by apply list_lookup_middle. Qed.

Lemma slot_insert (st : list lval) (v w : lval) :
  <[length st := w]> (st ++ [v]) = st ++ [w].
Proof.
  rewrite insert_app_r_alt by lia. by rewrite Nat.sub_diag.
Qed.

Ltac steps :=
  repeat first
    [ progress cbv beta iota
    | progress cbn [stack avail zrng calls with_stack with_avail with_zrng
                    log_call val len fst snd lookup list_lookup]
    | rewrite slot_lookup
    | rewrite slot_insert
    | rewrite decide_True by (first [done | lia])
    | rewrite decide_False by (first [done | lia | by intros ? | auto]) ].

Lemma hash_loop (m : octet) :
  octet_wf m ->
  for_upto (len m)
    (fun i sh =>
                      match load (val m) i with
                      | Some b => Some (HASH256_process sh b)
                      | None => None
                      end) HASH256_init
  = Some (fold_left HASH256_process (octet_bytes m) HASH256_init).
Proof.
  intros [_ Hcap]. unfold for_upto.
  rewrite for_from_process by lia. by rewrite drop_0.
Qed.

Lemma hash_buffer_write (sh : hash256) :
  write_bytes (local_array HASH_SIZE) (HASH256_hash sh) = Some (HASH256_hash sh).
Proof.
  rewrite write_bytes_some.
  - rewrite drop_ge, app_nil_r; [done|].
    unfold local_array. rewrite length_replicate, HASH256_hash_size. sizes. lia.
  - unfold local_array. rewrite length_replicate, HASH256_hash_size. sizes. lia.
Qed.

Lemma hash_buffer_read (sh : hash256) :
  read_bytes (HASH256_hash sh) HASH_SIZE = Some (HASH256_hash sh).
Proof.
  rewrite read_bytes_some by (rewrite HASH256_hash_size; sizes; lia).
  rewrite take_ge; [done|]. rewrite HASH256_hash_size. sizes. lia.
Qed.

Lemma read_octet (o : octet) (size : Z) :
  octet_wf o -> len o = size -> read_bytes (val o) size = Some (octet_bytes o).
Proof.
  intros [_ Hcap] Hlen. unfold octet_bytes. rewrite Hlen in *.
  by apply read_bytes_some.
Qed.

Lemma pubcheck_failed_normalize (L L' : lua_State) ret raw fm :
  allocate_raw_public_key 1 L = Next (ret, raw, fm) L' ->
  ret <> 0 ->
  p256_pubcheck L = at_end 1 fm L'.
Proof.
  intros Hn Hret. unfold p256_pubcheck. unfold_c.
  rewrite Hn. rewrite decide_True by done. done.
Qed.

Lemma verify_failed_normalize (L L' : lua_State) ret raw fm :
  allocate_raw_public_key 1 L = Next (ret, raw, fm) L' ->
  ret <> 0 ->
  p256_verify L = at_end 1 fm L'.
Proof.
  intros Hn Hret. unfold p256_verify. unfold_c.
  rewrite Hn. rewrite decide_True by done. done.
Qed.

Lemma pub_xy_failed_normalize (L L' : lua_State) ret raw fm :
  allocate_raw_public_key 1 L = Next (ret, raw, fm) L' ->
  ret <> 0 ->
  p256_pub_xy L = at_end 2 fm L'.
Proof.
  intros Hn Hret. unfold p256_pub_xy. unfold_c.
  rewrite Hn. rewrite decide_True by done. by destruct fm.
Qed.

Lemma compress_failed_normalize (L L' : lua_State) ret raw fm :
  allocate_raw_public_key 1 L = Next (ret, raw, fm) L' ->
  ret <> 0 ->
  p256_compress_pub L = at_end 1 fm L'.
Proof.
  intros Hn Hret. unfold p256_compress_pub. unfold_c.
  rewrite Hn. rewrite decide_True by done. done.
Qed.

Lemma verify_normalized (L L' : lua_State) raw fm (m sig : octet) :
  allocate_raw_public_key 1 L = Next (0, Some raw, fm) L' ->
  stack L !! 1%nat = Some (LOctet m) ->
  stack L !! 2%nat = Some (LOctet sig) ->
  octet_wf m -> octet_wf sig ->
  p256_verify L
  = if decide (len sig = SIG_SIZE) then
      let call := CallEcdsaVerify (octet_bytes sig) (octet_bytes raw)
                    (sha256_digest (octet_bytes m)) HASH_SIZE in
      let ok := p256_ecdsa_verify (octet_bytes sig) (octet_bytes raw)
                  (sha256_digest (octet_bytes m)) HASH_SIZE =? 0 in
      Returns [LBool ok] (with_stack (stack L ++ [LBool ok]) (log_call call L'))
    else
      Raises "Invalid size for P256 signature" (with_stack (stack L ++ [LNil]) L').
Proof.
  intros Hn Hm Hsig Hwfm Hwfsig.
  destruct (normalize_shape _ _ _ _ _ _ Hn) as (Hst & _ & _ & Hraw & Hfm & _).
  destruct (Hraw raw eq_refl) as [Hrlen Hrcap].
  destruct (Hfm eq_refl) as [-> _].
  assert (Hwfraw : octet_wf raw) by (split; rewrite Hrlen; [done|lia]).
  unfold p256_verify. unfold_c.
  rewrite Hn. steps. rewrite Hst.
  change (Z.to_nat (2 - 1)) with 1%nat. change (Z.to_nat (3 - 1)) with 2%nat.
  rewrite Hm. steps. rewrite Hst, Hsig. steps.
  destruct (decide (len sig = SIG_SIZE)) as [Hlen|Hlen].
  - steps.
    rewrite (hash_loop m Hwfm). steps.
    rewrite hash_buffer_write. steps.
    rewrite (read_octet sig SIG_SIZE) by done. steps.
    rewrite (read_octet raw PK_SIZE) by done. steps.
    rewrite hash_buffer_read. steps.
    erewrite END_1 by reflexivity. by rewrite Hst.
  - steps. by rewrite Hst.
Qed.

Lemma pubcheck_normalized (L L' : lua_State) raw fm :
  allocate_raw_public_key 1 L = Next (0, Some raw, fm) L' ->
  let ok := p256_validate_pubkey (octet_bytes raw) =? 0 in
  p256_pubcheck L
  = Returns [LBool ok]
      (with_stack (stack L ++ [LBool ok])
         (log_call (CallValidatePubkey (octet_bytes raw)) L')).
Proof.
  intros Hn.
  destruct (normalize_shape _ _ _ _ _ _ Hn) as (Hst & _ & _ & Hraw & Hfm & _).
  destruct (Hraw raw eq_refl) as [Hrlen Hrcap].
  destruct (Hfm eq_refl) as [-> _].
  assert (Hwfraw : octet_wf raw) by (split; rewrite Hrlen; [done|lia]).
  unfold p256_pubcheck. unfold_c.
  rewrite Hn. steps.
  rewrite (read_octet raw PK_SIZE) by done. steps.
  erewrite END_1 by reflexivity. by rewrite Hst.
Qed.

(** The buffer of a coordinate: 32 bytes copied to the start of a new
    33-byte octet, then the store of 0 at index 33. *)
Lemma pub_xy_normalized (L L' : lua_State) raw fm (k : nat) :
  allocate_raw_public_key 1 L = Next (0, Some raw, fm) L' ->
  avail L' = S (S k) ->
  (Z.to_nat (PK_COORD_SIZE + 1) < length (o_fresh (PK_COORD_SIZE + 1)))%nat ->
  let x := coord_octet (take 32 (val raw)) in
  let y := coord_octet (take 32 (drop 32 (val raw))) in
  p256_pub_xy L
  = Returns [LOctet x; LOctet y]
      (with_avail k (with_stack (stack L ++ [LOctet x; LOctet y]) L')).
Proof.
  intros Hn Hav Hcap.
  destruct (normalize_shape _ _ _ _ _ _ Hn) as (Hst & _ & _ & Hraw & Hfm & _).
  destruct (Hraw raw eq_refl) as [Hrlen Hrcap].
  destruct (Hfm eq_refl) as [-> _].
  assert (Hstore : forall bytes : list byte,
    length bytes = 32%nat ->
    store (bytes ++ drop 32 (o_fresh (PK_COORD_SIZE + 1)))
      (Z.to_nat (PK_COORD_SIZE + 1)) x00
    = Some (<[33%nat := x00]> (bytes ++ drop 32 (o_fresh (PK_COORD_SIZE + 1))))).
  { intros bytes Hb. apply store_some.
    rewrite length_app, length_drop, Hb. sizes. lia. }
  unfold p256_pub_xy. unfold_c.
  rewrite Hn. steps. rewrite Hav. steps.
  rewrite (copy_loop (val raw) 0);
    [ | intros j v; by rewrite Nat.add_0_r | sizes; lia | sizes; lia ].
  steps. rewrite drop_0.
  rewrite Hstore by (rewrite length_take_le; sizes; lia).
  steps.
  rewrite (copy_loop (val raw) (Z.to_nat PK_COORD_SIZE));
    [ | intros j v; by rewrite Nat.add_comm | sizes; lia | sizes; lia ].
  steps.
  rewrite Hstore by (rewrite length_take_le; [done | rewrite length_drop; sizes; lia]).
  steps.
  erewrite END_2; [|rewrite <- app_assoc; reflexivity].
  rewrite <- app_assoc, Hst. reflexivity.
Qed.



Lemma compress_normalized (L L' : lua_State) raw fm (k : nat) :
  allocate_raw_public_key 1 L = Next (0, Some raw, fm) L' ->
  avail L' = S k ->
  let res := p256_compress_publickey (octet_bytes raw) in
  let c := filled COMPRESSED_PK_SIZE (snd res) in
  let L'' := with_avail k (with_stack (stack L ++ [LOctet c])
               (log_call (CallCompress (octet_bytes raw)) L')) in
  p256_compress_pub L
  = if decide (fst res <> 0)
    then Raises "Could not compress public key" L''
    else Returns [LOctet c] L''.
Proof.
  intros Hn Hav. cbv zeta.
  destruct (normalize_shape _ _ _ _ _ _ Hn) as (Hst & _ & _ & Hraw & Hfm & _).
  destruct (Hraw raw eq_refl) as [Hrlen Hrcap].
  destruct (Hfm eq_refl) as [-> _].
  assert (Hwfraw : octet_wf raw) by (split; rewrite Hrlen; [done|lia]).
  pose proof (compress_size (octet_bytes raw)) as Hout.
  pose proof (o_fresh_size COMPRESSED_PK_SIZE) as Hfresh.
  unfold p256_compress_pub. unfold_c.
  rewrite Hn. steps. rewrite Hav. steps.
  rewrite (read_octet raw PK_SIZE) by done. steps.
  destruct (p256_compress_publickey (octet_bytes raw)) as [ret out].
  steps.
  rewrite write_bytes_some by (simpl in Hout; sizes; lia).
  steps. rewrite Hst.
  destruct (decide (ret <> 0)); steps; [done|].
  by erewrite END_1 by reflexivity.
Qed.

(** ** Signing and key generation *)

Lemma sign_spec (L : lua_State) (sk m : octet) (ks : list octet) :
  stack L = LOctet sk :: LOctet m :: map LOctet ks ->
  octet_wf sk -> octet_wf m ->
  p256_sign L
  = if decide (len sk = SK_SIZE) then
      match avail L with
      | O => Raises "Could not allocate signature" L
      | S n =>
          let k := head ks in
          let digest := sha256_digest (octet_bytes m) in
          let res := p256_ecdsa_sign (zrng L) k (octet_bytes sk) digest HASH_SIZE in
          let sig := filled SIG_SIZE (snd (fst res)) in
          let L' :=
            with_zrng (snd res)
              (log_call (CallEcdsaSign k (octet_bytes sk) digest HASH_SIZE)
                 (with_avail n (with_stack (stack L ++ [LOctet sig]) L))) in
          if decide (fst (fst res) <> 0)
          then Raises "Could not sign message" L'
          else Returns [LOctet sig] L'
      end
    else
      Raises "Invalid size for ECDSA secret key" (with_stack (stack L ++ [LNil]) L).
Proof.
  intros Hst Hwfsk Hwfm.
  pose proof (o_fresh_size SIG_SIZE) as Hfresh.
  destruct L as [st av r cs]. simpl in Hst. subst st.
  unfold p256_sign. unfold_c. steps.
  change (Z.to_nat (1 - 1)) with 0%nat. change (Z.to_nat (2 - 1)) with 1%nat.
  change (Z.to_nat (3 - 1)) with 2%nat.
  cbn [lookup list_lookup]. steps.
  destruct (decide (len sk = SK_SIZE)) as [Hlen|Hlen]; steps; [|done].
  rewrite (hash_loop m Hwfm). steps.
  rewrite hash_buffer_write. steps.
  destruct av as [|n]; steps; [done|].
  pose proof (ecdsa_sign_size r (head ks) (octet_bytes sk)
                (sha256_digest (octet_bytes m)) HASH_SIZE) as Hout.
  destruct ks as [|k0 ks']; cbn [map length head] in *.
  - rewrite decide_False by lia. steps.
    rewrite (read_octet sk SK_SIZE) by done. steps.
    rewrite hash_buffer_read. steps.
    unfold sha256_digest in *.
    destruct (p256_ecdsa_sign r None (octet_bytes sk) _ HASH_SIZE) as [[ret out] r'].
    steps. change (2%nat) with (length [LOctet sk; LOctet m]). steps.
    rewrite write_bytes_some by (simpl in Hout; sizes; lia).
    steps.
    destruct (decide (ret <> 0)); steps; [done|].
    by erewrite END_1 by reflexivity.
  - rewrite decide_True by lia. steps.
    rewrite lookup_app_l by (simpl; lia). steps.
    rewrite (read_octet sk SK_SIZE) by done. steps.
    rewrite hash_buffer_read. steps.
    unfold sha256_digest in *.
    destruct (p256_ecdsa_sign r (Some k0) (octet_bytes sk) _ HASH_SIZE)
      as [[ret out] r'].
    steps.
    change (S (S (S (length (map LOctet ks')))))
      with (length (LOctet sk :: LOctet m :: LOctet k0 :: map LOctet ks')).
    steps.
    rewrite write_bytes_some by (simpl in Hout; sizes; lia).
    steps.
    destruct (decide (ret <> 0)); steps; [done|].
    by erewrite END_1 by reflexivity.
Qed.

Lemma keygen_spec (L : lua_State) :
  p256_keygen L
  = match avail L with
    | O => Crashes
    | S n =>
        let res := p256_gen_keypair (zrng L) None in
        let sk := filled SK_SIZE (snd (fst (fst res))) in
        Returns [LOctet sk]
          (with_zrng (snd res)
             (log_call (CallGenKeypair None)
                (with_avail n (with_stack (stack L ++ [LOctet sk]) L))))
    end.
Proof.
  pose proof (o_fresh_size SK_SIZE) as Hfresh.
  pose proof (gen_keypair_priv_size (zrng L) None) as Hpriv.
  pose proof (gen_keypair_pub_size (zrng L) None) as Hpub.
  destruct L as [st av r cs]. cbn [zrng] in *.
  unfold p256_keygen. unfold_c. steps.
  destruct av as [|n]; steps; [done|].
  destruct (p256_gen_keypair r None) as [[[ret priv] pub] r'].
  steps.
  rewrite write_bytes_some by (simpl in Hpriv; sizes; lia).
  steps.
  rewrite write_bytes_some
    by (unfold local_array; rewrite length_replicate; simpl in Hpub; sizes; lia).
  steps.
  by erewrite END_1 by reflexivity.
Qed.


(** ** Facts about filled buffers *)

Lemma filled_bytes (size : Z) (bs : list byte) :
  length bs = Z.to_nat size -> octet_bytes (filled size bs) = bs.
Proof.
  intros Hlen. unfold octet_bytes, filled. simpl.
  by rewrite take_app_length' by done.
Qed.

Lemma filled_length (size : Z) (bs : list byte) :
  (length bs <= Z.to_nat size)%nat ->
  length (octet_bytes (filled size bs)) = Z.to_nat size.
Proof.
  intros Hlen. pose proof (o_fresh_size size) as Hfresh.
  unfold octet_bytes, filled. simpl.
  rewrite length_take, length_app, length_drop. lia.
Qed.

Lemma octet_of_bytes_wf (bs : list byte) : octet_wf (octet_of_bytes bs).
Proof. unfold octet_wf, octet_of_bytes. simpl. lia. Qed.

Lemma octet_of_bytes_bytes (bs : list byte) : octet_bytes (octet_of_bytes bs) = bs.
Proof.
  unfold octet_bytes, octet_of_bytes. simpl.
  rewrite Nat2Z.id. by apply take_ge.
Qed.

Lemma first_byte (o : octet) (b0 : byte) :
  octet_bytes o !! 0%nat = Some b0 -> val o !! 0%nat = Some b0.
Proof.
  unfold octet_bytes. rewrite lookup_take. by case_decide.
Qed.

Lemma octet_bytes_length (o : octet) :
  octet_wf o -> length (octet_bytes o) = Z.to_nat (len o).
Proof. intros [_ Hcap]. unfold octet_bytes. by rewrite length_take_le. Qed.

(** ** Failing validations *)

Lemma sign_bad_secret (L : lua_State) (sk m : octet) :
  stack L !! 0%nat = Some (LOctet sk) ->
  stack L !! 1%nat = Some (LOctet m) ->
  len sk <> SK_SIZE ->
  p256_sign L
  = Raises "Invalid size for ECDSA secret key" (with_stack (stack L ++ [LNil]) L).
Proof.
  intros Hsk Hm Hlen.
  destruct L as [st av r cs]. cbn [stack] in *.
  unfold p256_sign. unfold_c. steps.
  change (Z.to_nat (1 - 1)) with 0%nat. change (Z.to_nat (2 - 1)) with 1%nat.
  rewrite Hsk. steps. rewrite Hm. steps. done.
Qed.

Lemma verify_bad_signature (L L' : lua_State) raw fm (m sig : octet) :
  allocate_raw_public_key 1 L = Next (0, raw, fm) L' ->
  stack L !! 1%nat = Some (LOctet m) ->
  stack L !! 2%nat = Some (LOctet sig) ->
  len sig <> SIG_SIZE ->
  p256_verify L
  = Raises "Invalid size for P256 signature" (with_stack (stack L ++ [LNil]) L').
Proof.
  intros Hn Hm Hsig Hlen.
  destruct (normalize_shape _ _ _ _ _ _ Hn) as (Hst & _).
  destruct L' as [st av r cs]. cbn [stack] in *. subst st.
  unfold p256_verify. unfold_c.
  rewrite Hn. steps.
  change (Z.to_nat (2 - 1)) with 1%nat. change (Z.to_nat (3 - 1)) with 2%nat.
  rewrite Hm. steps. rewrite Hsig. steps. done.
Qed.

Lemma verify_malformed_key (L : lua_State) (pk : octet) (n : nat) :
  stack L !! 0%nat = Some (LOctet pk) ->
  octet_wf pk ->
  avail L = S n ->
  malformed_key pk ->
  exists msg,
    p256_verify L = Raises msg (with_avail n L) /\
    (error_of_message msg = Some InvalidKeyLength \/
     error_of_message msg = Some InvalidEncoding).
Proof.
  intros Harg Hwf Hav Hbad.
  destruct Hbad as [(H64 & H65 & H33) | [(Hlen & b0 & Hb0 & Hne)
                                        | (Hlen & b0 & Hb0 & Hne2 & Hne3)]].
  - pose proof (normalize_bad_length L 1 pk n ltac:(done) Harg Hav H64 H65 H33) as Hn.
    rewrite (verify_failed_normalize _ _ _ _ _ Hn) by done.
    eexists. split; [apply at_end_raises|]. by left.
  - pose proof (normalize_uncompressed_bad_prefix L 1 pk n ltac:(done) Harg Hav b0
                  Hlen (first_byte _ _ Hb0) Hne) as Hn.
    rewrite (verify_failed_normalize _ _ _ _ _ Hn) by done.
    eexists. split; [apply at_end_raises|]. by right.
  - pose proof (normalize_compressed_bad_prefix L 1 pk n ltac:(done) Harg Hav b0
                  Hlen (first_byte _ _ Hb0) Hne2 Hne3) as Hn.
    rewrite (verify_failed_normalize _ _ _ _ _ Hn) by done.
    eexists. split; [apply at_end_raises|]. by right.
Qed.

Lemma at_end_state (k : nat) (fm : option string) (L L'' : lua_State) :
  final_state (at_end k fm L) = Some L'' -> L'' = L.
Proof.
  unfold at_end, run, END. unfold_c.
  destruct fm; [by intros [= <-]|].
  case_decide; [by intros [= <-]|done].
Qed.

(** ** The coordinate octets *)

Lemma coord_octet_bytes (bytes : list byte) :
  length bytes = 32%nat -> octet_bytes (coord_octet bytes) = bytes.
Proof.
  intros Hb. unfold octet_bytes, coord_octet. cbn [val len].
  rewrite take_insert_ge by (sizes; lia).
  by apply take_app_length'.
Qed.

Lemma raw_halves (r : octet) :
  len r = PK_SIZE -> (Z.to_nat PK_SIZE <= length (val r))%nat ->
  take 32 (val r) = take 32 (octet_bytes r) /\
  take 32 (drop 32 (val r)) = drop 32 (octet_bytes r) /\
  length (take 32 (val r)) = 32%nat /\
  length (take 32 (drop 32 (val r))) = 32%nat.
Proof.
  intros Hrlen Hrcap. unfold octet_bytes. rewrite Hrlen.
  repeat split.
  - by rewrite take_take.
  - by rewrite take_drop_commute.
  - rewrite length_take_le; sizes; lia.
  - rewrite length_take_le; [done | rewrite length_drop; sizes; lia].
Qed.

(** ** The claims *)

(** C1.  The public-key normalizer dispatches on length and prefix alone.
    Given the key at the argument position and room for the result buffer:
    a 64-byte key comes back unchanged; a 65-byte key must start with 0x04
    (InvalidEncoding otherwise) and comes back as its bytes 1..65; a 33-byte
    key must start with 0x02 or 0x03 (InvalidEncoding otherwise) and is
    handed to the engine's decompression routine, whose result code and
    output are passed on; any other length is InvalidKeyLength. *)
Theorem normalizer_dispatch (L : lua_State) (pk_pos : Z) (pk : octet) (n : nat) :
  1 <= pk_pos ->
  stack L !! Z.to_nat (pk_pos - 1) = Some (LOctet pk) ->
  octet_wf pk ->
  avail L = S n ->
  let result := allocate_raw_public_key pk_pos L in
  let L' := with_avail n L in
  (len pk = PK_SIZE ->
     result = Next (0, Some (filled PK_SIZE (octet_bytes pk)), None) L' /\
     octet_bytes (filled PK_SIZE (octet_bytes pk)) = octet_bytes pk)
  /\ (len pk = UNCOMPRESSED_PK_SIZE ->
      forall b0, octet_bytes pk !! 0%nat = Some b0 ->
        (b0 <> x04 ->
           exists msg,
             result = Next (1, Some (filled PK_SIZE []), Some msg) L' /\
             error_of_message msg = Some InvalidEncoding)
        /\ (b0 = x04 ->
             result = Next (0, Some (filled PK_SIZE (drop 1 (octet_bytes pk))), None) L' /\
             octet_bytes (filled PK_SIZE (drop 1 (octet_bytes pk)))
             = drop 1 (octet_bytes pk)))
  /\ (len pk = COMPRESSED_PK_SIZE ->
      forall b0, octet_bytes pk !! 0%nat = Some b0 ->
        (b0 <> x02 -> b0 <> x03 ->
           exists msg,
             result = Next (1, Some (filled PK_SIZE []), Some msg) L' /\
             error_of_message msg = Some InvalidEncoding)
        /\ (b0 = x02 \/ b0 = x03 ->
             let res := p256_uncompress_publickey (octet_bytes pk) in
             result = Next (fst res, Some (filled PK_SIZE (snd res)), None)
                        (log_call (CallUncompress (octet_bytes pk)) L')))
  /\ (len pk <> PK_SIZE -> len pk <> UNCOMPRESSED_PK_SIZE ->
      len pk <> COMPRESSED_PK_SIZE ->
      exists msg,
        result = Next (1, Some (filled PK_SIZE []), Some msg) L' /\
        error_of_message msg = Some InvalidKeyLength).
Proof.
  intros Hpos Harg Hwf Hav result L'. subst result L'.
  pose proof (octet_bytes_length pk Hwf) as Hblen.
  split; [|split; [|split]].
  - intros Hlen. split.
    + by apply (normalize_raw L pk_pos pk n).
    + apply filled_bytes. by rewrite Hblen, Hlen.
  - intros Hlen b0 Hb0. apply first_byte in Hb0. split.
    + intros Hne.
      exists "Invalid long public key prefix: 0x04 expected". split; [|done].
      by apply (normalize_uncompressed_bad_prefix L pk_pos pk n Hpos Harg Hav b0).
    + intros ->. split.
      * by apply (normalize_uncompressed L pk_pos pk n).
      * apply filled_bytes. rewrite length_drop, Hblen, Hlen. done.
  - intros Hlen b0 Hb0. apply first_byte in Hb0. split.
    + intros Hne2 Hne3.
      exists "Invalid compressed public key prefix: 0x02 or 0x03 expected".
      split; [|done].
      by apply (normalize_compressed_bad_prefix L pk_pos pk n Hpos Harg Hav b0).
    + intros Hpre.
      by apply (normalize_compressed L pk_pos pk n Hpos Harg Hwf Hav b0).
  - intros H64 H65 H33.
    exists "Invalid public key length". split; [|done].
    by apply (normalize_bad_length L pk_pos pk n).
Qed.

(** C2.  A well-formed compressed key (33 bytes, prefix 0x02 or 0x03)
    whose decompression the engine rejects makes the normalizer return the
    engine's non-zero code but leaves [failed_msg] unset.  None of the four
    operations that normalize a key then raises an error: validate, verify
    and compress return the value on top of their frame (their own last
    argument), and coordinates returns the two topmost values. *)
Theorem decompression_failure_not_raised
    (L : lua_State) (pk : octet) (n : nat) (b0 : byte) :
  stack L !! 0%nat = Some (LOctet pk) ->
  octet_wf pk ->
  avail L = S n ->
  len pk = COMPRESSED_PK_SIZE ->
  octet_bytes pk !! 0%nat = Some b0 ->
  b0 = x02 \/ b0 = x03 ->
  fst (p256_uncompress_publickey (octet_bytes pk)) <> 0 ->
  let L' := log_call (CallUncompress (octet_bytes pk)) (with_avail n L) in
  let top := drop (length (stack L) - 1) (stack L) in
  (exists ret raw,
     allocate_raw_public_key 1 L = Next (ret, raw, None) L' /\ ret <> 0)
  /\ p256_pubcheck L = Returns top L'
  /\ p256_verify L = Returns top L'
  /\ p256_compress_pub L = Returns top L'
  /\ (forall msg L'', p256_pub_xy L <> Raises msg L'').
Proof.
  intros Harg Hwf Hav Hlen Hb0 Hpre Hfail L' top.
  pose proof (normalize_compressed L 1 pk n ltac:(done) Harg Hwf Hav b0 Hlen
                (first_byte _ _ Hb0) Hpre) as Hn.
  cbv zeta in Hn. fold L' in Hn.
  assert (Hend : run (END 1) L' = Returns top L').
  { unfold run, END. subst L' top. cbn [stack log_call with_avail].
    apply lookup_lt_Some in Harg.
    by rewrite decide_True by lia. }
  split; [eauto|].
  rewrite (pubcheck_failed_normalize _ _ _ _ _ Hn Hfail).
  rewrite (verify_failed_normalize _ _ _ _ _ Hn Hfail).
  rewrite (compress_failed_normalize _ _ _ _ _ Hn Hfail).
  rewrite (pub_xy_failed_normalize _ _ _ _ _ Hn Hfail).
  repeat split; try exact Hend.
  intros msg L''. unfold at_end, run, END. unfold_c.
  by case_decide.
Qed.

(** C3 (amended).  A call to keygen that can allocate its octet returns
    exactly one value: the octet the engine wrote the secret key into,
    whose logical length is 32 bytes.  Whatever keygen returns is that one
    value: the public key the engine computed stays in a local array and is
    not handed to the caller. *)
Theorem keygen_returns_secret_only (L : lua_State) :
  let res := p256_gen_keypair (zrng L) None in
  let sk := filled SK_SIZE (snd (fst (fst res))) in
  length (octet_bytes sk) = 32%nat
  /\ (forall n, avail L = S n -> exists L', p256_keygen L = Returns [LOctet sk] L')
  /\ (forall vals L', p256_keygen L = Returns vals L' -> vals = [LOctet sk]).
Proof.
  cbv zeta. rewrite keygen_spec.
  split; [|split].
  - apply (filled_length SK_SIZE). apply gen_keypair_priv_size.
  - intros n ->. eauto.
  - intros vals L'. destruct (avail L); [done|]. by intros [= <- _].
Qed.

(** C4.  Sign and verify hash the message in the same way.  For a sign
    call with a 32-byte secret and a verify call whose key has normalized
    and whose signature has 64 bytes, both on the same message bytes (the
    empty message included), the digest passed to the engine's ECDSA-sign
    and the digest passed to the engine's ECDSA-verify are one and the same
    32-byte value: the hash of the message bytes fed in order. *)
Theorem sign_verify_same_digest
    (Ls Lv Lv' : lua_State) (sk m pk_raw m' sig : octet) (ks : list octet)
    (n : nat) (fm : option string) :
  stack Ls = LOctet sk :: LOctet m :: map LOctet ks ->
  octet_wf sk -> octet_wf m -> len sk = SK_SIZE -> avail Ls = S n ->
  allocate_raw_public_key 1 Lv = Next (0, Some pk_raw, fm) Lv' ->
  stack Lv !! 1%nat = Some (LOctet m') ->
  stack Lv !! 2%nat = Some (LOctet sig) ->
  octet_wf m' -> octet_wf sig -> len sig = SIG_SIZE ->
  octet_bytes m' = octet_bytes m ->
  exists digest,
    digest = sha256_digest (octet_bytes m) /\
    length digest = 32%nat /\
    (exists Ls',
       final_state (p256_sign Ls) = Some Ls' /\
       calls Ls' = calls Ls ++
         [CallEcdsaSign (head ks) (octet_bytes sk) digest HASH_SIZE]) /\
    (exists Lv'',
       final_state (p256_verify Lv) = Some Lv'' /\
       calls Lv'' = calls Lv' ++
         [CallEcdsaVerify (octet_bytes sig) (octet_bytes pk_raw) digest HASH_SIZE]).
Proof.
  intros Hst Hwfsk Hwfm Hsklen Hav Hn Hm' Hsig Hwfm' Hwfsig Hsiglen Hsame.
  exists (sha256_digest (octet_bytes m)).
  split; [done|]. split; [apply HASH256_hash_size|]. split.
  - rewrite (sign_spec Ls sk m ks Hst Hwfsk Hwfm).
    rewrite decide_True by done. rewrite Hav. cbv zeta.
    case_decide; eexists; split; reflexivity.
  - rewrite (verify_normalized _ _ _ _ _ _ Hn Hm' Hsig Hwfm' Hwfsig).
    rewrite decide_True by done. cbv zeta. rewrite Hsame.
    eexists. split; reflexivity.
Qed.

(** C5.  Once the public key has normalized, verify checks the length of
    the signature: any length other than 64 raises
    InvalidSignatureLength; with 64 bytes the call returns one boolean,
    true exactly when the engine's ECDSA-verify returned 0, so that a
    signature the engine rejects gives the value false. *)
Theorem verify_returns_engine_result
    (L L' : lua_State) (raw : option octet) (fm : option string) (m sig : octet) :
  allocate_raw_public_key 1 L = Next (0, raw, fm) L' ->
  stack L !! 1%nat = Some (LOctet m) ->
  stack L !! 2%nat = Some (LOctet sig) ->
  octet_wf m -> octet_wf sig ->
  exists r, raw = Some r /\
    let code := p256_ecdsa_verify (octet_bytes sig) (octet_bytes r)
                  (sha256_digest (octet_bytes m)) HASH_SIZE in
    (len sig <> SIG_SIZE ->
       exists msg L'',
         p256_verify L = Raises msg L'' /\
         error_of_message msg = Some InvalidSignatureLength)
    /\ (len sig = SIG_SIZE ->
        exists L'', p256_verify L = Returns [LBool (code =? 0)] L'')
    /\ (len sig = SIG_SIZE -> code <> 0 ->
        exists L'', p256_verify L = Returns [LBool false] L'').
Proof.
  intros Hn Hm Hsig Hwfm Hwfsig.
  destruct (normalize_shape _ _ _ _ _ _ Hn) as (_ & _ & _ & _ & Hfm & _).
  destruct (Hfm eq_refl) as [_ [r ->]].
  exists r. split; [done|]. cbv zeta.
  rewrite (verify_normalized _ _ _ _ _ _ Hn Hm Hsig Hwfm Hwfsig).
  repeat split.
  - intros Hlen. rewrite decide_False by done. eauto.
  - intros Hlen. rewrite decide_True by done. eauto.
  - intros Hlen Hcode. rewrite decide_True by done. cbv zeta.
    apply Z.eqb_neq in Hcode. rewrite Hcode. eauto.
Qed.

(** C6.  Validation failures stop sign and verify before the engine's
    sign or verify routine runs.  A secret key whose length is not 32 makes
    sign raise InvalidSecretKey with no engine call made and the generator
    untouched.  A malformed public key makes verify raise InvalidKeyLength
    or InvalidEncoding with no engine call made.  A signature whose length
    is not 64 makes verify raise InvalidSignatureLength with no engine call
    after normalization.  And whenever normalization returns a non-zero
    code, verify makes no engine call after it. *)
Theorem validation_short_circuits :
  (forall (L : lua_State) (sk m : octet),
     stack L !! 0%nat = Some (LOctet sk) ->
     stack L !! 1%nat = Some (LOctet m) ->
     len sk <> SK_SIZE ->
     exists msg L',
       p256_sign L = Raises msg L' /\
       error_of_message msg = Some InvalidSecretKey /\
       calls L' = calls L /\ zrng L' = zrng L)
  /\ (forall (L : lua_State) (pk : octet) (n : nat),
       stack L !! 0%nat = Some (LOctet pk) ->
       octet_wf pk -> avail L = S n -> malformed_key pk ->
       exists msg L',
         p256_verify L = Raises msg L' /\
         (error_of_message msg = Some InvalidKeyLength \/
          error_of_message msg = Some InvalidEncoding) /\
         calls L' = calls L /\ zrng L' = zrng L)
  /\ (forall (L L' : lua_State) raw fm (m sig : octet),
       allocate_raw_public_key 1 L = Next (0, raw, fm) L' ->
       stack L !! 1%nat = Some (LOctet m) ->
       stack L !! 2%nat = Some (LOctet sig) ->
       len sig <> SIG_SIZE ->
       exists msg L'',
         p256_verify L = Raises msg L'' /\
         error_of_message msg = Some InvalidSignatureLength /\
         calls L'' = calls L' /\ zrng L'' = zrng L)
  /\ (forall (L L' L'' : lua_State) ret raw fm,
       allocate_raw_public_key 1 L = Next (ret, raw, fm) L' ->
       ret <> 0 ->
       final_state (p256_verify L) = Some L'' ->
       calls L'' = calls L').
Proof.
  split; [|split; [|split]].
  - intros L sk m Hsk Hm Hlen.
    rewrite (sign_bad_secret L sk m Hsk Hm Hlen). by eexists _, _.
  - intros L pk n Harg Hwf Hav Hbad.
    destruct (verify_malformed_key L pk n Harg Hwf Hav Hbad) as (msg & -> & Herr).
    by eexists _, _.
  - intros L L' raw fm m sig Hn Hm Hsig Hlen.
    rewrite (verify_bad_signature L L' raw fm m sig Hn Hm Hsig Hlen).
    destruct (normalize_shape _ _ _ _ _ _ Hn) as (_ & Hrng & _).
    by eexists _, _.
  - intros L L' L'' ret raw fm Hn Hret.
    rewrite (verify_failed_normalize _ _ _ _ _ Hn Hret).
    by intros ->%at_end_state.
Qed.

(** C7.  For a key that normalizes to a raw key (and with room for the two
    coordinate octets, whose buffers must reach index 33), coordinates
    returns two octets: x holds bytes 0..31 and y bytes 32..63 of the raw
    key, each of logical length exactly 32, and the engine is not called
    after normalization. *)
Theorem coordinates_split
    (L L' : lua_State) (raw : option octet) (fm : option string) (k : nat) :
  allocate_raw_public_key 1 L = Next (0, raw, fm) L' ->
  avail L' = S (S k) ->
  (Z.to_nat (PK_COORD_SIZE + 1) < length (o_fresh (PK_COORD_SIZE + 1)))%nat ->
  exists r x y L'',
    raw = Some r /\
    p256_pub_xy L = Returns [LOctet x; LOctet y] L'' /\
    len x = 32 /\ len y = 32 /\
    octet_bytes x = take 32 (octet_bytes r) /\
    octet_bytes y = drop 32 (octet_bytes r) /\
    length (octet_bytes x) = 32%nat /\ length (octet_bytes y) = 32%nat /\
    calls L'' = calls L'.
Proof.
  intros Hn Hav Hcap.
  destruct (normalize_shape _ _ _ _ _ _ Hn) as (_ & _ & _ & Hraw & Hfm & _).
  destruct (Hfm eq_refl) as [_ [r ->]].
  destruct (Hraw r eq_refl) as [Hrlen Hrcap].
  pose proof (pub_xy_normalized L L' r fm k Hn Hav Hcap) as Hxy.
  cbv zeta in Hxy.
  destruct (raw_halves r Hrlen Hrcap) as (Hx & Hy & Hxlen & Hylen).
  eexists r, _, _, _. split; [done|]. split; [exact Hxy|].
  rewrite !coord_octet_bytes by done.
  repeat split; done.
Qed.

(** C8.  keygen never raises an error.  In particular, when the engine
    reports that key-pair generation failed, the result code is dropped and
    the call still returns a 32-byte octet as the secret key. *)
Theorem keygen_ignores_engine_failure (L : lua_State) :
  (forall msg L', p256_keygen L <> Raises msg L')
  /\ (forall n,
        avail L = S n ->
        fst (fst (fst (p256_gen_keypair (zrng L) None))) <> 0 ->
        exists sk L',
          p256_keygen L = Returns [LOctet sk] L' /\
          length (octet_bytes sk) = 32%nat).
Proof.
  rewrite keygen_spec. split.
  - intros msg L'. by destruct (avail L).
  - intros n -> _. eexists _, _. split; [done|].
    apply (filled_length SK_SIZE). apply gen_keypair_priv_size.
Qed.

(** C9.  Compression followed by coordinate extraction gives the same
    coordinates as direct extraction.  For a valid 64-byte raw key, that
    is one the engine compresses to prefix || X and decompresses back to
    the same bytes, compress returns a 33-byte octet, and coordinates
    returns for that octet the same x and y as for the raw key: bytes 0..31
    and bytes 32..63 of the raw key. *)
Theorem compress_roundtrip
    (L1 L2 L3 : lua_State) (pk : octet) (n1 n2 n3 : nat) :
  octet_wf pk -> len pk = PK_SIZE ->
  engine_roundtrips (octet_bytes pk) ->
  (Z.to_nat (PK_COORD_SIZE + 1) < length (o_fresh (PK_COORD_SIZE + 1)))%nat ->
  avail L1 = S (S n1) -> avail L2 = S (S (S n2)) -> avail L3 = S (S (S n3)) ->
  exists cpk x y,
    returned (p256_compress_pub (with_stack [LOctet pk] L1)) = Some [LOctet cpk] /\
    len cpk = COMPRESSED_PK_SIZE /\
    returned (p256_pub_xy (with_stack [LOctet cpk] L2)) = Some [LOctet x; LOctet y] /\
    returned (p256_pub_xy (with_stack [LOctet pk] L3)) = Some [LOctet x; LOctet y] /\
    octet_bytes x = take 32 (octet_bytes pk) /\
    octet_bytes y = drop 32 (octet_bytes pk).
Proof.
  intros Hwf Hlen (prefix & Hpre & Hcomp & Hunc) Hcap Hav1 Hav2 Hav3.
  pose proof (octet_bytes_length pk Hwf) as Hpklen. rewrite Hlen in Hpklen.
  set (c := prefix :: take 32 (octet_bytes pk)) in *.
  assert (Hclen : length c = 33%nat).
  { unfold c. cbn [length]. rewrite length_take_le; [done | sizes; lia]. }
  set (raw := filled PK_SIZE (octet_bytes pk)).
  assert (Hrawbytes : octet_bytes raw = octet_bytes pk) by by apply filled_bytes.
  set (cpk := filled COMPRESSED_PK_SIZE c).
  assert (Hcbytes : octet_bytes cpk = c) by by apply filled_bytes.
  assert (Hcwf : octet_wf cpk).
  { split; [done|]. unfold cpk, filled. cbn [val len].
    pose proof (o_fresh_size COMPRESSED_PK_SIZE).
    rewrite length_app, length_drop. sizes. lia. }
  (* compress on the raw key *)
  pose proof (normalize_raw (with_stack [LOctet pk] L1) 1 pk (S n1)
                ltac:(done) eq_refl Hwf Hav1 Hlen) as Hn1.
  pose proof (compress_normalized _ _ raw _ n1 Hn1 eq_refl) as Hc.
  cbv zeta in Hc. fold raw in Hc. rewrite Hrawbytes, Hcomp in Hc.
  cbn [fst snd] in Hc. rewrite decide_False in Hc by (intros Hne; by apply Hne).
  (* coordinates of the compressed key *)
  pose proof (normalize_compressed (with_stack [LOctet cpk] L2) 1 cpk (S (S n2))
                ltac:(done) eq_refl Hcwf Hav2 prefix eq_refl) as Hn2.
  rewrite Hcbytes, Hunc in Hn2. cbv zeta in Hn2. cbn [fst snd] in Hn2.
  specialize (Hn2 eq_refl Hpre).
  pose proof (pub_xy_normalized _ _ raw _ n2 Hn2 eq_refl Hcap) as Hxy2.
  (* coordinates of the raw key *)
  pose proof (normalize_raw (with_stack [LOctet pk] L3) 1 pk (S (S n3))
                ltac:(done) eq_refl Hwf Hav3 Hlen) as Hn3.
  pose proof (pub_xy_normalized _ _ raw _ n3 Hn3 eq_refl Hcap) as Hxy3.
  cbv zeta in Hxy2, Hxy3.
  assert (Hrlen : len raw = PK_SIZE) by done.
  assert (Hrcap : (Z.to_nat PK_SIZE <= length (val raw))%nat).
  { unfold raw, filled. cbn [val]. pose proof (o_fresh_size PK_SIZE).
    rewrite length_app, length_drop. lia. }
  destruct (raw_halves raw Hrlen Hrcap) as (Hx & Hy & Hxlen & Hylen).
  exists cpk, (coord_octet (take 32 (val raw))),
    (coord_octet (take 32 (drop 32 (val raw)))).
  rewrite Hc, Hxy2, Hxy3.
  rewrite !coord_octet_bytes by done.
  rewrite Hx, Hy, Hrawbytes.
  repeat split; done.
Qed.

(** C10.  An ephemeral octet passed as third argument is not inspected.
    Whatever its length and content, once the secret has 32 bytes (and the
    signature octet can be allocated) sign makes exactly one engine call,
    ECDSA-sign, with that very octet; the call returns the signature the
    engine wrote when the engine returns 0 and raises SigningFailed
    otherwise. *)
Theorem sign_forwards_ephemeral
    (L : lua_State) (sk m k : octet) (ks : list octet) (n : nat) :
  stack L = LOctet sk :: LOctet m :: LOctet k :: map LOctet ks ->
  octet_wf sk -> octet_wf m -> len sk = SK_SIZE -> avail L = S n ->
  let digest := sha256_digest (octet_bytes m) in
  let res := p256_ecdsa_sign (zrng L) (Some k) (octet_bytes sk) digest HASH_SIZE in
  exists L',
    calls L' = calls L ++ [CallEcdsaSign (Some k) (octet_bytes sk) digest HASH_SIZE] /\
    (fst (fst res) = 0 ->
       p256_sign L = Returns [LOctet (filled SIG_SIZE (snd (fst res)))] L') /\
    (fst (fst res) <> 0 ->
       exists msg,
         p256_sign L = Raises msg L' /\ error_of_message msg = Some SigningFailed).
Proof.
  intros Hst Hwfsk Hwfm Hsklen Hav. cbv zeta.
  rewrite (sign_spec L sk m (k :: ks) Hst Hwfsk Hwfm).
  rewrite decide_True by done. rewrite Hav. cbv zeta. cbn [head].
  set (digest := sha256_digest (octet_bytes m)).
  set (res := p256_ecdsa_sign (zrng L) (Some k) (octet_bytes sk) digest HASH_SIZE).
  exists (with_zrng (snd res)
            (log_call (CallEcdsaSign (Some k) (octet_bytes sk) digest HASH_SIZE)
               (with_avail n
                  (with_stack (stack L ++ [LOctet (filled SIG_SIZE (snd (fst res)))]) L)))).
  split; [reflexivity|]. split.
  - intros Hret. by rewrite decide_False by (intros Hc; by apply Hc).
  - intros Hret. rewrite decide_True by done. eauto.
Qed.

(** * Beyond the claims: the rest of the file *)

(** ** More paths through the functions *)

Lemma normalize_no_argument (L : lua_State) (pk_pos : Z) :
  (forall o, stack L !! Z.to_nat (pk_pos - 1) <> Some (LOctet o)) ->
  allocate_raw_public_key pk_pos L
  = Next (1, None, Some "Could not allocate public key") L.
Proof.
  intros Hnone. unfold allocate_raw_public_key.
  unfold mbind at 1. unfold C_bind at 1. unfold o_arg at 1.
  case_decide; [|done].
  destruct (stack L !! Z.to_nat (pk_pos - 1)) as [[| |o]|] eqn:Hslot; try done.
  by destruct (Hnone o).
Qed.

Lemma normalize_no_memory (L : lua_State) (pk_pos : Z) (pk : octet) :
  1 <= pk_pos ->
  stack L !! Z.to_nat (pk_pos - 1) = Some (LOctet pk) ->
  avail L = O ->
  allocate_raw_public_key pk_pos L
  = Next (1, None, Some "Could not allocate raw public key") L.
Proof.
  intros Hpos Harg Hav. unfold allocate_raw_public_key.
  unfold mbind at 1. unfold C_bind at 1. unfold o_arg at 1.
  rewrite decide_True by done. rewrite Harg.
  unfold mbind at 1. unfold C_bind at 1. unfold o_alloc at 1.
  by rewrite Hav.
Qed.

Lemma pubgen_spec (L : lua_State) (sk : octet) :
  stack L !! 0%nat = Some (LOctet sk) ->
  octet_wf sk ->
  p256_pubgen L
  = if decide (len sk = SK_SIZE) then
      match avail L with
      | O => Raises "Could not allocate public key" L
      | S n =>
          let res := p256_publickey (octet_bytes sk) in
          let pk := filled PK_SIZE (snd res) in
          let L' := log_call (CallPublickey (octet_bytes sk))
                      (with_avail n (with_stack (stack L ++ [LOctet pk]) L)) in
          if decide (fst res <> 0)
          then Raises "Could not generate public key" L'
          else Returns [LOctet pk] L'
      end
    else
      Raises "Invalid size for P256 secret key" (with_stack (stack L ++ [LNil]) L).
Proof.
  intros Harg Hwf.
  pose proof (o_fresh_size PK_SIZE) as Hfresh.
  pose proof (publickey_size (octet_bytes sk)) as Hout.
  destruct L as [st av r cs]. cbn [stack] in *.
  unfold p256_pubgen. unfold_c. steps.
  change (Z.to_nat (1 - 1)) with 0%nat. rewrite Harg. steps.
  destruct (decide (len sk = SK_SIZE)) as [Hlen|Hlen]; steps; [|done].
  destruct av as [|n]; steps; [done|].
  rewrite (read_octet sk SK_SIZE) by done. steps.
  destruct (p256_publickey (octet_bytes sk)) as [ret out].
  steps.
  rewrite write_bytes_some by (simpl in Hout; sizes; lia).
  steps.
  destruct (decide (ret <> 0)); steps; [done|].
  by erewrite END_1 by reflexivity.
Qed.

Lemma pubgen_no_argument (L : lua_State) :
  (forall o, stack L !! 0%nat <> Some (LOctet o)) ->
  p256_pubgen L = Raises "Could not allocate secret key" L.
Proof.
  intros Hnone. unfold p256_pubgen. unfold_c. steps.
  change (Z.to_nat (1 - 1)) with 0%nat.
  destruct (stack L !! 0%nat) as [[| |o]|] eqn:Hslot; try done.
  by destruct (Hnone o).
Qed.

Lemma sign_no_secret (L : lua_State) :
  (forall o, stack L !! 0%nat <> Some (LOctet o)) ->
  p256_sign L = Raises "Could not allocate secret key" L.
Proof.
  intros Hnone. unfold p256_sign. unfold_c. steps.
  change (Z.to_nat (1 - 1)) with 0%nat.
  destruct (stack L !! 0%nat) as [[| |o]|] eqn:Hslot; try done.
  by destruct (Hnone o).
Qed.

Lemma sign_no_message (L : lua_State) (sk : octet) :
  stack L !! 0%nat = Some (LOctet sk) ->
  (forall o, stack L !! 1%nat <> Some (LOctet o)) ->
  p256_sign L = Raises "Could not allocate message" L.
Proof.
  intros Hsk Hnone. unfold p256_sign. unfold_c. steps.
  change (Z.to_nat (1 - 1)) with 0%nat. change (Z.to_nat (2 - 1)) with 1%nat.
  rewrite Hsk. steps.
  destruct (stack L !! 1%nat) as [[| |o]|] eqn:Hslot; try done.
  by destruct (Hnone o).
Qed.

Lemma verify_no_message (L L' : lua_State) raw fm :
  allocate_raw_public_key 1 L = Next (0, raw, fm) L' ->
  (forall o, stack L !! 1%nat <> Some (LOctet o)) ->
  p256_verify L = Raises "Could not allocate message" L'.
Proof.
  intros Hn Hnone.
  destruct (normalize_shape _ _ _ _ _ _ Hn) as (Hst & _).
  unfold p256_verify. unfold_c. rewrite Hn. steps.
  change (Z.to_nat (2 - 1)) with 1%nat. rewrite Hst.
  destruct (stack L !! 1%nat) as [[| |o]|] eqn:Hslot; try done.
  by destruct (Hnone o).
Qed.

Lemma verify_no_signature (L L' : lua_State) raw fm (m : octet) :
  allocate_raw_public_key 1 L = Next (0, raw, fm) L' ->
  stack L !! 1%nat = Some (LOctet m) ->
  (forall o, stack L !! 2%nat <> Some (LOctet o)) ->
  p256_verify L = Raises "Could not allocate signature" L'.
Proof.
  intros Hn Hm Hnone.
  destruct (normalize_shape _ _ _ _ _ _ Hn) as (Hst & _).
  destruct L' as [st av r cs]. cbn [stack] in *. subst st.
  unfold p256_verify. unfold_c. rewrite Hn. steps.
  change (Z.to_nat (2 - 1)) with 1%nat. change (Z.to_nat (3 - 1)) with 2%nat.
  rewrite Hm. steps.
  destruct (stack L !! 2%nat) as [[| |o]|] eqn:Hslot; try done.
  by destruct (Hnone o).
Qed.

Lemma pub_xy_no_memory_x (L L' : lua_State) raw fm :
  allocate_raw_public_key 1 L = Next (0, raw, fm) L' ->
  avail L' = O ->
  p256_pub_xy L = Raises "Could not create x coordinate" L'.
Proof.
  intros Hn Hav.
  destruct (normalize_shape _ _ _ _ _ _ Hn) as (_ & _ & _ & _ & Hfm & _).
  destruct (Hfm eq_refl) as [_ [r ->]].
  unfold p256_pub_xy. unfold_c. rewrite Hn. steps. rewrite Hav. by steps.
Qed.

Lemma pub_xy_no_memory_y (L L' : lua_State) raw fm :
  allocate_raw_public_key 1 L = Next (0, Some raw, fm) L' ->
  avail L' = 1%nat ->
  (Z.to_nat (PK_COORD_SIZE + 1) < length (o_fresh (PK_COORD_SIZE + 1)))%nat ->
  p256_pub_xy L
  = Raises "Could not create y coordinate"
      (with_avail 0
         (with_stack (stack L ++ [LOctet (coord_octet (take 32 (val raw)))]) L')).
Proof.
  intros Hn Hav Hcap.
  destruct (normalize_shape _ _ _ _ _ _ Hn) as (Hst & _ & _ & Hraw & Hfm & _).
  destruct (Hraw raw eq_refl) as [Hrlen Hrcap].
  unfold p256_pub_xy. unfold_c.
  rewrite Hn. steps. rewrite Hav. steps.
  rewrite (copy_loop (val raw) 0);
    [ | intros j v; by rewrite Nat.add_0_r | sizes; lia | sizes; lia ].
  steps. rewrite drop_0.
  rewrite store_some
    by (rewrite length_app, length_drop, length_take_le; sizes; lia).
  steps. by rewrite Hst.
Qed.

Lemma compress_no_memory (L L' : lua_State) raw fm :
  allocate_raw_public_key 1 L = Next (0, raw, fm) L' ->
  avail L' = O ->
  p256_compress_pub L = Raises "Could not create compressed public key" L'.
Proof.
  intros Hn Hav.
  destruct (normalize_shape _ _ _ _ _ _ Hn) as (_ & _ & _ & _ & Hfm & _).
  destruct (Hfm eq_refl) as [_ [r ->]].
  unfold p256_compress_pub. unfold_c. rewrite Hn. steps. rewrite Hav. by steps.
Qed.

Lemma sign_non_octet_ephemeral (L : lua_State) (sk m : octet) (n : nat) :
  stack L !! 0%nat = Some (LOctet sk) ->
  stack L !! 1%nat = Some (LOctet m) ->
  (2 < length (stack L))%nat ->
  (forall o, stack L !! 2%nat <> Some (LOctet o)) ->
  octet_wf m -> len sk = SK_SIZE -> avail L = S n ->
  p256_sign L
  = Raises "Could not allocate ephemeral key"
      (with_avail n
         (with_stack (stack L ++ [LOctet {| val := o_fresh SIG_SIZE; len := SIG_SIZE |}])
            L)).
Proof.
  intros Hsk Hm Hargs Hnone Hwfm Hlen Hav.
  destruct L as [st av r cs]. cbn [stack avail] in *. subst av.
  unfold p256_sign. unfold_c. steps.
  change (Z.to_nat (1 - 1)) with 0%nat. change (Z.to_nat (2 - 1)) with 1%nat.
  change (Z.to_nat (3 - 1)) with 2%nat.
  rewrite Hsk. steps. rewrite Hm. steps.
  rewrite (hash_loop m Hwfm). steps.
  rewrite hash_buffer_write. steps.
  rewrite lookup_app_l by lia.
  destruct (st !! 2%nat) as [[| |o]|] eqn:Hslot; try done.
  by destruct (Hnone o).
Qed.

(** ** The frame relation along the control flow *)

Section Frame.
Variables (k : nat) (rs : list routine) (draw : bool).

Lemma frame_refl (L : lua_State) :
  (k <= length (stack L))%nat -> frame k rs draw L L.
Proof.
  intros Hk. repeat split; try done.
  exists []. by rewrite app_nil_r.
Qed.

Lemma frame_trans (L L' L'' : lua_State) :
  frame k rs draw L L' -> frame k rs draw L' L'' -> frame k rs draw L L''.
Proof.
  intros (Hk1 & Hst1 & Hav1 & Hr1 & new1 & Hc1 & Hf1)
         (Hk2 & Hst2 & Hav2 & Hr2 & new2 & Hc2 & Hf2).
  repeat split.
  - done.
  - by rewrite Hst2.
  - lia.
  - intros Hd. by rewrite Hr2, Hr1.
  - exists (new1 ++ new2). split.
    + by rewrite Hc2, Hc1, app_assoc.
    + by apply Forall_app.
Qed.

(** A step that changes only the stack, above the first [k] slots. *)
Lemma frame_stack (L : lua_State) (st : list lval) :
  (k <= length (stack L))%nat ->
  (k <= length st)%nat -> take k st = take k (stack L) ->
  frame k rs draw L (with_stack st L).
Proof.
  intros Hk Hlen Htake. repeat split; try done.
  exists []. by rewrite app_nil_r.
Qed.

Lemma frame_push (L : lua_State) (v : lval) :
  (k <= length (stack L))%nat ->
  frame k rs draw L (with_stack (stack L ++ [v]) L).
Proof.
  intros Hk. apply frame_stack; [done | rewrite length_app; lia |].
  by rewrite take_app_le.
Qed.

Lemma frame_log (L : lua_State) (c : engine_call) :
  (k <= length (stack L))%nat -> routine_of c ∈ rs ->
  frame k rs draw L (log_call c L).
Proof.
  intros Hk Hc. repeat split; try done.
  exists [c]. split; [done|]. by apply Forall_singleton.
Qed.

Lemma respects_bind {T U : Type} (post : T -> Prop) (post' : U -> Prop)
    (m : C T) (f : T -> C U) :
  respects k rs draw post m ->
  (forall a, post a -> respects k rs draw post' (f a)) ->
  respects k rs draw post' (m ≫= f).
Proof.
  intros Hm Hf L Hk. specialize (Hm L Hk).
  unfold mbind, C_bind.
  destruct (m L) as [a L1|fm L1|msg L1|]; try done.
  destruct Hm as [Hfr Hpost].
  specialize (Hf a Hpost L1 (proj1 Hfr)).
  destruct (f a L1) as [b L2|fm L2|msg L2|]; try done.
  - destruct Hf as [Hfr2 Hpost2]. split; [|done]. by eapply frame_trans.
  - by eapply frame_trans.
  - by eapply frame_trans.
Qed.

Lemma respects_ret {T : Type} (a : T) :
  respects k rs draw (fun _ => True) (mret a).
Proof. intros L Hk. split; [by apply frame_refl | done]. Qed.

Lemma respects_goto_end {T : Type} (post : T -> Prop) (fm : option string) :
  respects k rs draw post (goto_end fm).
Proof. intros L Hk. by apply frame_refl. Qed.

Lemma respects_THROW {T : Type} (post : T -> Prop) (msg : string) :
  respects k rs draw post (THROW msg).
Proof. intros L Hk. by apply frame_refl. Qed.

Lemma respects_ub {T : Type} (x : option T) :
  respects k rs draw (fun _ => True) (ub x).
Proof.
  intros L Hk. unfold ub. destruct x; [|done].
  split; [by apply frame_refl | done].
Qed.

Lemma respects_catch_end (body : C unit) :
  respects k rs draw (fun _ => True) body ->
  respects k rs draw (fun _ => True) (catch_end body).
Proof.
  intros Hb L Hk. specialize (Hb L Hk). unfold catch_end.
  destruct (body L) as [a L1|fm L1|msg L1|]; first [done | by destruct Hb].
Qed.

Lemma respects_END (n : nat) : respects k rs draw (fun _ => True) (END n).
Proof.
  intros L Hk. unfold END. case_decide; [|done].
  split; [by apply frame_refl | done].
Qed.

Lemma respects_gettop : respects k rs draw (fun _ => True) lua_gettop.
Proof. intros L Hk. split; [by apply frame_refl | done]. Qed.

Lemma respects_push (v : lval) : respects k rs draw (fun _ => True) (lua_push v).
Proof. intros L Hk. split; [by apply frame_push | done]. Qed.

Lemma respects_o_arg (pos : Z) : respects k rs draw (fun _ => True) (o_arg pos).
Proof. intros L Hk. split; [by apply frame_refl | done]. Qed.

Lemma respects_o_alloc (size : Z) :
  respects k rs draw (fun _ => True) (o_alloc size).
Proof.
  intros L Hk. unfold o_alloc.
  destruct (avail L) as [|n] eqn:Hav.
  - split; [by apply frame_refl | done].
  - split; [|done]. repeat split; try done.
    + cbn [avail with_avail]. lia.
    + exists []. by rewrite app_nil_r.
Qed.

(** The slot [o_new] hands out lies above the first [k]. *)
Lemma respects_o_new (size : Z) :
  respects k rs draw (fun p => forall s, p = Some s -> (k <= s)%nat) (o_new size).
Proof.
  intros L Hk. unfold o_new.
  destruct (avail L) as [|n] eqn:Hav.
  - split; [by apply frame_refl | done].
  - split.
    + repeat split; cbn [stack avail zrng calls with_avail with_stack];
        first [ done
              | rewrite length_app; lia
              | by rewrite take_app_le
              | lia
              | exists []; by rewrite app_nil_r ].
    + by intros s [= <-].
Qed.

Lemma frame_slot (L : lua_State) (s : nat) (v : lval) :
  (k <= length (stack L))%nat -> (k <= s)%nat ->
  frame k rs draw L (with_stack (<[s := v]> (stack L)) L).
Proof.
  intros Hk Hs. apply frame_stack; [done | by rewrite length_insert |].
  by apply take_insert_ge.
Qed.

Lemma respects_set_len (p : option nat) (n : Z) :
  (forall s, p = Some s -> (k <= s)%nat) ->
  respects k rs draw (fun _ => True) (set_len p n).
Proof.
  intros Hp L Hk. unfold set_len.
  destruct p as [s|]; [|done].
  destruct (stack L !! s) as [[| |o]|]; try done.
  split; [|done]. apply frame_slot; [done | by apply Hp].
Qed.

Lemma respects_set_val (p : option nat) (v : list byte) :
  (forall s, p = Some s -> (k <= s)%nat) ->
  respects k rs draw (fun _ => True) (set_val p v).
Proof.
  intros Hp L Hk. unfold set_val.
  destruct p as [s|]; [|done].
  destruct (stack L !! s) as [[| |o]|]; try done.
  split; [|done]. apply frame_slot; [done | by apply Hp].
Qed.

Lemma respects_get_val (p : option nat) :
  respects k rs draw (fun _ => True) (get_val p).
Proof.
  intros L Hk. unfold get_val.
  destruct p as [s|]; [|done].
  destruct (stack L !! s) as [[| |o]|]; try done.
  split; [by apply frame_refl | done].
Qed.

Lemma respects_nonnull {T : Type} (x : option T) (msg : string) :
  respects k rs draw (fun _ => True) (nonnull x msg).
Proof.
  unfold nonnull. destruct x; [apply respects_ret | apply respects_goto_end].
Qed.

Lemma respects_ASSERT_OCT_LEN (oct : octet) (size : Z) (msg : string) :
  respects k rs draw (fun _ => True) (ASSERT_OCT_LEN oct size msg).
Proof.
  unfold ASSERT_OCT_LEN. case_decide; [|apply respects_ret].
  eapply respects_bind; [apply respects_push|].
  intros _ _. apply respects_goto_end.
Qed.

Lemma respects_call_publickey (sk : list byte) :
  Publickey ∈ rs -> respects k rs draw (fun _ => True) (call_publickey sk).
Proof. intros Hr L Hk. split; [by apply frame_log | done]. Qed.

Lemma respects_call_validate_pubkey (pk : list byte) :
  ValidatePubkey ∈ rs ->
  respects k rs draw (fun _ => True) (call_validate_pubkey pk).
Proof. intros Hr L Hk. split; [by apply frame_log | done]. Qed.

Lemma respects_call_uncompress (c : list byte) :
  Uncompress ∈ rs ->
  respects k rs draw (fun _ => True) (call_uncompress_publickey c).
Proof. intros Hr L Hk. split; [by apply frame_log | done]. Qed.

Lemma respects_call_compress (pk : list byte) :
  Compress ∈ rs ->
  respects k rs draw (fun _ => True) (call_compress_publickey pk).
Proof. intros Hr L Hk. split; [by apply frame_log | done]. Qed.

Lemma respects_call_verify (sig pk hash : list byte) (hlen : Z) :
  EcdsaVerify ∈ rs ->
  respects k rs draw (fun _ => True) (call_ecdsa_verify sig pk hash hlen).
Proof. intros Hr L Hk. split; [by apply frame_log | done]. Qed.

Lemma respects_call_sign (e : option octet) (sk hash : list byte) (hlen : Z) :
  EcdsaSign ∈ rs -> draw = true ->
  respects k rs draw (fun _ => True) (call_ecdsa_sign e sk hash hlen).
Proof.
  intros Hr Hd L Hk. unfold call_ecdsa_sign.
  destruct (p256_ecdsa_sign (zrng L) e sk hash hlen) as [[ret sig] r].
  split; [|done]. repeat split; try done.
  - intros Hf. by rewrite Hd in Hf.
  - exists [CallEcdsaSign e sk hash hlen]. split; [done|].
    by apply Forall_singleton.
Qed.

Lemma respects_call_gen_keypair (e : option octet) :
  GenKeypair ∈ rs -> draw = true ->
  respects k rs draw (fun _ => True) (call_gen_keypair e).
Proof.
  intros Hr Hd L Hk. unfold call_gen_keypair.
  destruct (p256_gen_keypair (zrng L) e) as [[[ret priv] pub] r].
  split; [|done]. repeat split; try done.
  - intros Hf. by rewrite Hd in Hf.
  - exists [CallGenKeypair e]. split; [done|]. by apply Forall_singleton.
Qed.

(** What the caller of a function sees of a body that respects the
    frame of its arguments. *)
Lemma run_respects (f : C (list lval)) (post : list lval -> Prop)
    (L L' : lua_State) :
  respects k rs draw post f ->
  (k <= length (stack L))%nat ->
  final_state (run f L) = Some L' ->
  frame k rs draw L L'.
Proof.
  intros Hf Hk. specialize (Hf L Hk). unfold run.
  destruct (f L) as [a L1|fm L1|msg L1|]; try done.
  - destruct Hf as [Hfr _]. by intros [= <-].
  - by intros [= <-].
Qed.

End Frame.

(** Walking a function body: one rule per construct. *)
Ltac respects_step :=
  lazymatch goal with
  | |- respects _ _ _ _ (mbind _ (o_new _)) =>
      eapply respects_bind; [apply respects_o_new | intros ? ?]
  | |- respects _ _ _ _ (mbind _ _) =>
      eapply (respects_bind _ _ _ (fun _ => True)); [ | intros ? _]
  | |- respects _ _ _ _ (mret _) => apply respects_ret
  | |- respects _ _ _ _ BEGIN => apply respects_ret
  | |- respects _ _ _ _ o_free => apply respects_ret
  | |- respects _ _ _ _ (goto_end _) => apply respects_goto_end
  | |- respects _ _ _ _ (THROW _) => apply respects_THROW
  | |- respects _ _ _ _ (ub _) => apply respects_ub
  | |- respects _ _ _ _ (catch_end _) => apply respects_catch_end
  | |- respects _ _ _ _ (END _) => apply respects_END
  | |- respects _ _ _ _ lua_gettop => apply respects_gettop
  | |- respects _ _ _ _ lua_pushnil => apply respects_push
  | |- respects _ _ _ _ (lua_pushboolean _) => apply respects_push
  | |- respects _ _ _ _ (o_arg _) => apply respects_o_arg
  | |- respects _ _ _ _ (o_alloc _) => apply respects_o_alloc
  | |- respects _ _ _ _ (nonnull _ _) => apply respects_nonnull
  | |- respects _ _ _ _ (ASSERT_OCT_LEN _ _ _) => apply respects_ASSERT_OCT_LEN
  | |- respects _ _ _ _ (set_len _ _) => apply respects_set_len; assumption
  | |- respects _ _ _ _ (set_val _ _) => apply respects_set_val; assumption
  | |- respects _ _ _ _ (get_val _) => apply respects_get_val
  | |- respects _ _ _ _ (call_publickey _) =>
      apply respects_call_publickey; assumption
  | |- respects _ _ _ _ (call_validate_pubkey _) =>
      apply respects_call_validate_pubkey; assumption
  | |- respects _ _ _ _ (call_uncompress_publickey _) =>
      apply respects_call_uncompress; assumption
  | |- respects _ _ _ _ (call_compress_publickey _) =>
      apply respects_call_compress; assumption
  | |- respects _ _ _ _ (call_ecdsa_verify _ _ _ _) =>
      apply respects_call_verify; assumption
  | |- respects _ _ _ _ (call_ecdsa_sign _ _ _ _) =>
      apply respects_call_sign; assumption
  | |- respects _ _ _ _ (call_gen_keypair _) =>
      apply respects_call_gen_keypair; assumption
  | |- respects _ _ _ _ (match ?x with _ => _ end) => destruct x
  end.

Section FrameOfFunctions.
Variables (k : nat) (rs : list routine) (draw : bool).

Lemma respects_normalizer (pk_pos : Z) :
  Uncompress ∈ rs ->
  respects k rs draw (fun _ => True) (allocate_raw_public_key pk_pos).
Proof.
  intros Hu. unfold allocate_raw_public_key. repeat respects_step.
Qed.

Lemma keygen_frame (L L' : lua_State) :
  GenKeypair ∈ rs -> draw = true ->
  (k <= length (stack L))%nat ->
  final_state (p256_keygen L) = Some L' -> frame k rs draw L L'.
Proof.
  intros Hg Hd. unfold p256_keygen. apply (run_respects _ _ _ _ (fun _ => True)).
  cbv zeta. repeat respects_step.
Qed.

Lemma pubgen_frame (L L' : lua_State) :
  Publickey ∈ rs ->
  (k <= length (stack L))%nat ->
  final_state (p256_pubgen L) = Some L' -> frame k rs draw L L'.
Proof.
  intros Hp. unfold p256_pubgen. apply (run_respects _ _ _ _ (fun _ => True)).
  repeat respects_step.
Qed.

Lemma session_frame (L L' : lua_State) :
  (k <= length (stack L))%nat ->
  final_state (p256_session L) = Some L' -> frame k rs draw L L'.
Proof.
  unfold p256_session.
  apply (run_respects _ _ _ _ (fun _ => True)). repeat respects_step.
Qed.

Lemma destroy_frame (L L' : lua_State) :
  (k <= length (stack L))%nat ->
  final_state (p256_destroy L) = Some L' -> frame k rs draw L L'.
Proof.
  unfold p256_destroy.
  apply (run_respects _ _ _ _ (fun _ => True)). repeat respects_step.
Qed.

Lemma pubcheck_frame (L L' : lua_State) :
  Uncompress ∈ rs -> ValidatePubkey ∈ rs ->
  (k <= length (stack L))%nat ->
  final_state (p256_pubcheck L) = Some L' -> frame k rs draw L L'.
Proof.
  intros Hu Hv. unfold p256_pubcheck.
  apply (run_respects _ _ _ _ (fun _ => True)).
  pose proof (respects_normalizer 1 Hu) as Hnorm.
  repeat first [ apply Hnorm | respects_step ].
Qed.

Lemma sign_frame (L L' : lua_State) :
  EcdsaSign ∈ rs -> draw = true ->
  (k <= length (stack L))%nat ->
  final_state (p256_sign L) = Some L' -> frame k rs draw L L'.
Proof.
  intros Hs Hd. unfold p256_sign. apply (run_respects _ _ _ _ (fun _ => True)).
  repeat respects_step.
Qed.

Lemma verify_frame (L L' : lua_State) :
  Uncompress ∈ rs -> EcdsaVerify ∈ rs ->
  (k <= length (stack L))%nat ->
  final_state (p256_verify L) = Some L' -> frame k rs draw L L'.
Proof.
  intros Hu Hv. unfold p256_verify.
  apply (run_respects _ _ _ _ (fun _ => True)).
  pose proof (respects_normalizer 1 Hu) as Hnorm.
  repeat first [ apply Hnorm | respects_step ].
Qed.

Lemma pub_xy_frame (L L' : lua_State) :
  Uncompress ∈ rs ->
  (k <= length (stack L))%nat ->
  final_state (p256_pub_xy L) = Some L' -> frame k rs draw L L'.
Proof.
  intros Hu. unfold p256_pub_xy.
  apply (run_respects _ _ _ _ (fun _ => True)).
  pose proof (respects_normalizer 1 Hu) as Hnorm.
  repeat first [ apply Hnorm | respects_step ].
Qed.

Lemma compress_frame (L L' : lua_State) :
  Uncompress ∈ rs -> Compress ∈ rs ->
  (k <= length (stack L))%nat ->
  final_state (p256_compress_pub L) = Some L' -> frame k rs draw L L'.
Proof.
  intros Hu Hc. unfold p256_compress_pub.
  apply (run_respects _ _ _ _ (fun _ => True)).
  pose proof (respects_normalizer 1 Hu) as Hnorm.
  repeat first [ apply Hnorm | respects_step ].
Qed.

End FrameOfFunctions.

(** ** The class table as a whole *)

Lemma frame_whole_stack (rs : list routine) (draw : bool) (L L' : lua_State) :
  frame (length (stack L)) rs draw L L' ->
  exists pushed, stack L' = stack L ++ pushed.
Proof.
  intros (_ & Htake & _).
  exists (drop (length (stack L)) (stack L')).
  rewrite <- (take_drop (length (stack L)) (stack L')) at 1.
  by rewrite Htake, take_ge.
Qed.

Ltac routine_listed := unfold all_routines; repeat constructor.

Lemma class_frame (name : string) (f : lua_CFunction) (L L' : lua_State) :
  (name, f) ∈ p256_class ++ p256_methods ->
  final_state (f L) = Some L' ->
  frame (length (stack L)) all_routines true L L'.
Proof.
  intros Hin. unfold p256_class, p256_methods in Hin. cbn [app] in Hin.
  repeat (apply elem_of_cons in Hin as [Hin|Hin];
          [injection Hin as -> -> |]).
  all: try by apply elem_of_nil in Hin.
  - apply keygen_frame; [routine_listed | done | done].
  - apply pubgen_frame; [routine_listed | done].
  - by apply session_frame.
  - apply pubcheck_frame; [routine_listed | routine_listed | done].
  - apply pubcheck_frame; [routine_listed | routine_listed | done].
  - apply pubcheck_frame; [routine_listed | routine_listed | done].
  - apply sign_frame; [routine_listed | done | done].
  - apply verify_frame; [routine_listed | routine_listed | done].
  - apply pub_xy_frame; [routine_listed | done].
  - apply pub_xy_frame; [routine_listed | done].
  - apply compress_frame; [routine_listed | routine_listed | done].
  - by apply destroy_frame.
Qed.


Lemma frame_calls_only (rs : list routine) (f : lua_CFunction) :
  (forall L L', final_state (f L) = Some L' ->
     frame (length (stack L)) rs true L L') ->
  calls_only rs f.
Proof.
  intros Hf L L' Hfin. by destruct (Hf L L' Hfin) as (_ & _ & _ & _ & Hnew).
Qed.

(** ** Properties of the whole file *)

(** X1.  Every function of the class table and the method table leaves
    its arguments alone: whether it returns or raises, the stack it leaves
    is the frame it was called with followed by what it pushed. *)
Theorem arguments_untouched
    (name : string) (f : lua_CFunction) (L L' : lua_State) :
  (name, f) ∈ p256_class ++ p256_methods ->
  final_state (f L) = Some L' ->
  exists pushed, stack L' = stack L ++ pushed.
Proof.
  intros Hin Hfin.
  eapply frame_whole_stack. by eapply class_frame.
Qed.


(** X3.  Each operation reaches only its own engine routines, on every
    path: keygen only key-pair generation, pubgen only public-key
    derivation, validate only decompression and validation, sign only
    ECDSA-sign, verify only decompression and ECDSA-verify, coordinates
    only decompression, compress only decompression and compression;
    session and the __gc method call nothing. *)
Theorem engine_routines_per_operation :
  calls_only [GenKeypair] p256_keygen /\
  calls_only [Publickey] p256_pubgen /\
  calls_only [Uncompress; ValidatePubkey] p256_pubcheck /\
  calls_only [EcdsaSign] p256_sign /\
  calls_only [Uncompress; EcdsaVerify] p256_verify /\
  calls_only [Uncompress] p256_pub_xy /\
  calls_only [Uncompress; Compress] p256_compress_pub /\
  calls_only [] p256_session /\
  calls_only [] p256_destroy.
Proof.
  repeat split; apply frame_calls_only; intros L L'.
  - apply keygen_frame; [repeat constructor | done | done].
  - apply pubgen_frame; [repeat constructor | done].
  - apply pubcheck_frame; [repeat constructor | repeat constructor | done].
  - apply sign_frame; [repeat constructor | done | done].
  - apply verify_frame; [repeat constructor | repeat constructor | done].
  - apply pub_xy_frame; [repeat constructor | done].
  - apply compress_frame; [repeat constructor | repeat constructor | done].
  - by apply session_frame.
  - by apply destroy_frame.
Qed.

(** ** Properties of single operations *)

(** X4.  pubgen on a secret-key octet: any length other than 32 raises
    InvalidSecretKey before the engine is called; with 32 bytes (and room
    for the result) the engine's public-key derivation is called once on
    exactly those bytes, a non-zero result code raises DerivationFailed,
    and a zero result code returns one octet of 64 bytes holding what the
    engine wrote. *)
Theorem pubgen_derives_public_key (L : lua_State) (sk : octet) :
  stack L !! 0%nat = Some (LOctet sk) ->
  octet_wf sk ->
  (len sk <> SK_SIZE ->
     exists msg L',
       p256_pubgen L = Raises msg L' /\
       error_of_message msg = Some InvalidSecretKey /\
       calls L' = calls L)
  /\ (len sk = SK_SIZE -> forall n, avail L = S n ->
      let res := p256_publickey (octet_bytes sk) in
      let pk := filled PK_SIZE (snd res) in
      exists L',
        calls L' = calls L ++ [CallPublickey (octet_bytes sk)] /\
        length (octet_bytes pk) = 64%nat /\
        (fst res = 0 -> p256_pubgen L = Returns [LOctet pk] L') /\
        (fst res <> 0 ->
           exists msg,
             p256_pubgen L = Raises msg L' /\
             error_of_message msg = Some DerivationFailed)).
Proof.
  intros Harg Hwf. rewrite (pubgen_spec L sk Harg Hwf). split.
  - intros Hlen. rewrite decide_False by done. by eexists _, _.
  - intros Hlen n Hav. rewrite decide_True by done. rewrite Hav. cbv zeta.
    set (res := p256_publickey (octet_bytes sk)).
    exists (log_call (CallPublickey (octet_bytes sk))
              (with_avail n
                 (with_stack (stack L ++ [LOctet (filled PK_SIZE (snd res))]) L))).
    split; [done|]. split.
    + apply (filled_length PK_SIZE). apply publickey_size.
    + split.
      * intros Hret. by rewrite decide_False by (intros Hc; by apply Hc).
      * intros Hret. rewrite decide_True by done. eauto.
Qed.

Lemma first_argument_missing (L : lua_State) :
  (forall o, stack L !! 0%nat <> Some (LOctet o)) ->
  p256_pubgen L = Raises "Could not allocate secret key" L /\
  p256_sign L = Raises "Could not allocate secret key" L /\
  p256_pubcheck L = Raises "Could not allocate public key" L /\
  p256_verify L = Raises "Could not allocate public key" L /\
  p256_pub_xy L = Raises "Could not allocate public key" L /\
  p256_compress_pub L = Raises "Could not allocate public key" L.
Proof.
  intros Hnone.
  pose proof (normalize_no_argument L 1 Hnone) as Hn.
  split; [by apply pubgen_no_argument|].
  split; [by apply sign_no_secret|].
  rewrite (pubcheck_failed_normalize _ _ _ _ _ Hn) by done.
  rewrite (verify_failed_normalize _ _ _ _ _ Hn) by done.
  rewrite (pub_xy_failed_normalize _ _ _ _ _ Hn) by done.
  rewrite (compress_failed_normalize _ _ _ _ _ Hn) by done.
  done.
Qed.

(** X5.  Called without an octet as first argument (an empty frame
    included), every operation that reads one raises an allocation error
    and leaves the state as it found it: pubgen and sign for the secret
    key, validate, verify, coordinates and compress for the public key. *)
Theorem missing_first_argument_raises (L : lua_State) :
  (forall o, stack L !! 0%nat <> Some (LOctet o)) ->
  p256_pubgen L = Raises "Could not allocate secret key" L /\
  p256_sign L = Raises "Could not allocate secret key" L /\
  p256_pubcheck L = Raises "Could not allocate public key" L /\
  p256_verify L = Raises "Could not allocate public key" L /\
  p256_pub_xy L = Raises "Could not allocate public key" L /\
  p256_compress_pub L = Raises "Could not allocate public key" L.
Proof. apply first_argument_missing. Qed.

(** X6.  A missing message or signature is an error raised before any
    hashing or signing: sign without a message octet raises with the state
    untouched, and verify, once the key has normalized, raises for a
    missing message and for a missing signature with no engine call after
    normalization. *)
Theorem missing_later_arguments_raise :
  (forall (L : lua_State) (sk : octet),
     stack L !! 0%nat = Some (LOctet sk) ->
     (forall o, stack L !! 1%nat <> Some (LOctet o)) ->
     p256_sign L = Raises "Could not allocate message" L)
  /\ (forall (L L' : lua_State) raw fm,
       allocate_raw_public_key 1 L = Next (0, raw, fm) L' ->
       (forall o, stack L !! 1%nat <> Some (LOctet o)) ->
       p256_verify L = Raises "Could not allocate message" L')
  /\ (forall (L L' : lua_State) raw fm (m : octet),
       allocate_raw_public_key 1 L = Next (0, raw, fm) L' ->
       stack L !! 1%nat = Some (LOctet m) ->
       (forall o, stack L !! 2%nat <> Some (LOctet o)) ->
       p256_verify L = Raises "Could not allocate signature" L').
Proof.
  split; [|split].
  - apply sign_no_message.
  - apply verify_no_message.
  - apply verify_no_signature.
Qed.

(** X7.  With the allocator exhausted the normalizer fails before it
    looks at the key: whatever the length and prefix of the key octet,
    validate, verify, coordinates and compress raise the allocation error
    for the raw key, with no engine call and the state untouched. *)
Theorem exhausted_allocator_raises (L : lua_State) (pk : octet) :
  stack L !! 0%nat = Some (LOctet pk) ->
  avail L = O ->
  let msg := "Could not allocate raw public key" in
  error_of_message msg = Some AllocationFailed /\
  p256_pubcheck L = Raises msg L /\
  p256_verify L = Raises msg L /\
  p256_pub_xy L = Raises msg L /\
  p256_compress_pub L = Raises msg L.
Proof.
  intros Harg Hav. cbv zeta.
  pose proof (normalize_no_memory L 1 pk ltac:(done) Harg Hav) as Hn.
  rewrite (pubcheck_failed_normalize _ _ _ _ _ Hn) by done.
  rewrite (verify_failed_normalize _ _ _ _ _ Hn) by done.
  rewrite (pub_xy_failed_normalize _ _ _ _ _ Hn) by done.
  rewrite (compress_failed_normalize _ _ _ _ _ Hn) by done.
  done.
Qed.

(** X8.  validate on a key that normalizes returns one boolean and never
    an error: the engine's validation routine is called once, on the 64
    bytes of the normalized key, and the boolean is true exactly when it
    returned 0, so a key the engine rejects gives false. *)
Theorem validate_returns_boolean
    (L L' : lua_State) (raw : option octet) (fm : option string) :
  allocate_raw_public_key 1 L = Next (0, raw, fm) L' ->
  exists r L'',
    raw = Some r /\
    length (octet_bytes r) = 64%nat /\
    p256_pubcheck L
    = Returns [LBool (p256_validate_pubkey (octet_bytes r) =? 0)] L'' /\
    calls L'' = calls L' ++ [CallValidatePubkey (octet_bytes r)] /\
    (p256_validate_pubkey (octet_bytes r) <> 0 ->
     p256_pubcheck L = Returns [LBool false] L'').
Proof.
  intros Hn.
  destruct (normalize_shape _ _ _ _ _ _ Hn) as (_ & _ & _ & Hraw & Hfm & _).
  destruct (Hfm eq_refl) as [_ [r ->]].
  destruct (Hraw r eq_refl) as [Hrlen Hrcap].
  pose proof (pubcheck_normalized L L' r fm Hn) as Hp. cbv zeta in Hp.
  eexists r, _. split; [done|]. split.
  - unfold octet_bytes. rewrite Hrlen. by rewrite length_take_le.
  - split; [exact Hp|]. split; [done|].
    intros Hbad. rewrite Hp. apply Z.eqb_neq in Hbad. by rewrite Hbad.
Qed.

(** X9.  The three encodings of one key are interchangeable.  For a raw
    key of 64 bytes, the 65-byte octet 0x04 followed by those bytes, and a
    33-byte octet with prefix 0x02 or 0x03 that the engine decompresses to
    those bytes, each of validate, verify, coordinates and compress hands
    the same values back to Lua, whichever encoding it is given. *)
Theorem encodings_agree
    (L : lua_State) (pk64 pk65 pk33 m sig : octet) (rest : list lval)
    (n : nat) (b0 : byte) :
  octet_wf pk64 -> len pk64 = PK_SIZE ->
  octet_wf pk65 -> len pk65 = UNCOMPRESSED_PK_SIZE ->
  octet_bytes pk65 = x04 :: octet_bytes pk64 ->
  octet_wf pk33 -> len pk33 = COMPRESSED_PK_SIZE ->
  octet_bytes pk33 !! 0%nat = Some b0 -> b0 = x02 \/ b0 = x03 ->
  p256_uncompress_publickey (octet_bytes pk33) = (0, octet_bytes pk64) ->
  octet_wf m -> octet_wf sig ->
  avail L = S (S (S n)) ->
  (Z.to_nat (PK_COORD_SIZE + 1) < length (o_fresh (PK_COORD_SIZE + 1)))%nat ->
  let call (f : lua_CFunction) (pk : octet) (args : list lval) :=
    returned (f (with_stack (LOctet pk :: args) L)) in
  let args := LOctet m :: LOctet sig :: rest in
  (call p256_pubcheck pk65 rest = call p256_pubcheck pk64 rest /\
   call p256_pubcheck pk33 rest = call p256_pubcheck pk64 rest)
  /\ (call p256_verify pk65 args = call p256_verify pk64 args /\
      call p256_verify pk33 args = call p256_verify pk64 args)
  /\ (call p256_pub_xy pk65 rest = call p256_pub_xy pk64 rest /\
      call p256_pub_xy pk33 rest = call p256_pub_xy pk64 rest)
  /\ (call p256_compress_pub pk65 rest = call p256_compress_pub pk64 rest /\
      call p256_compress_pub pk33 rest = call p256_compress_pub pk64 rest).
Proof.
  intros Hwf64 Hlen64 Hwf65 Hlen65 Hb65 Hwf33 Hlen33 Hb0 Hpre Hunc Hwfm Hwfsig
    Hav Hcap. cbv zeta.
  set (raw := filled PK_SIZE (octet_bytes pk64)).
  assert (Hn64 : forall args,
    allocate_raw_public_key 1 (with_stack (LOctet pk64 :: args) L)
    = Next (0, Some raw, None)
        (with_avail (S (S n)) (with_stack (LOctet pk64 :: args) L))).
  { intros args. by apply normalize_raw. }
  assert (Hn65 : forall args,
    allocate_raw_public_key 1 (with_stack (LOctet pk65 :: args) L)
    = Next (0, Some raw, None)
        (with_avail (S (S n)) (with_stack (LOctet pk65 :: args) L))).
  { intros args.
    rewrite (normalize_uncompressed (with_stack (LOctet pk65 :: args) L) 1 pk65
               (S (S n))); try done.
    - by rewrite Hb65.
    - apply first_byte. by rewrite Hb65. }
  assert (Hn33 : forall args,
    allocate_raw_public_key 1 (with_stack (LOctet pk33 :: args) L)
    = Next (0, Some raw, None)
        (log_call (CallUncompress (octet_bytes pk33))
           (with_avail (S (S n)) (with_stack (LOctet pk33 :: args) L)))).
  { intros args.
    rewrite (normalize_compressed (with_stack (LOctet pk33 :: args) L) 1 pk33
               (S (S n)) ltac:(done) eq_refl Hwf33 Hav b0 Hlen33
               (first_byte _ _ Hb0) Hpre).
    by rewrite Hunc. }
  repeat split.
  - by rewrite (pubcheck_normalized _ _ _ _ (Hn65 rest)),
      (pubcheck_normalized _ _ _ _ (Hn64 rest)).
  - by rewrite (pubcheck_normalized _ _ _ _ (Hn33 rest)),
      (pubcheck_normalized _ _ _ _ (Hn64 rest)).
  - rewrite (verify_normalized _ _ _ _ m sig (Hn65 _)) by done.
    rewrite (verify_normalized _ _ _ _ m sig (Hn64 _)) by done.
    by case_decide.
  - rewrite (verify_normalized _ _ _ _ m sig (Hn33 _)) by done.
    rewrite (verify_normalized _ _ _ _ m sig (Hn64 _)) by done.
    by case_decide.
  - by rewrite (pub_xy_normalized _ _ _ _ n (Hn65 rest) eq_refl Hcap),
      (pub_xy_normalized _ _ _ _ n (Hn64 rest) eq_refl Hcap).
  - by rewrite (pub_xy_normalized _ _ _ _ n (Hn33 rest) eq_refl Hcap),
      (pub_xy_normalized _ _ _ _ n (Hn64 rest) eq_refl Hcap).
  - rewrite (compress_normalized _ _ _ _ (S n) (Hn65 rest) eq_refl).
    rewrite (compress_normalized _ _ _ _ (S n) (Hn64 rest) eq_refl).
    cbv zeta. by case_decide.
  - rewrite (compress_normalized _ _ _ _ (S n) (Hn33 rest) eq_refl).
    rewrite (compress_normalized _ _ _ _ (S n) (Hn64 rest) eq_refl).
    cbv zeta. by case_decide.
Qed.

(** X10.  coordinates needs two octets after normalization.  With none
    left it raises for the x coordinate; with one left (whose buffer
    reaches index 33) it builds x, leaves it on the stack and raises for
    the y coordinate.  Neither path calls the engine after
    normalization. *)
Theorem coordinates_allocation_failures
    (L L' : lua_State) (raw : octet) (fm : option string) :
  allocate_raw_public_key 1 L = Next (0, Some raw, fm) L' ->
  (avail L' = O ->
     p256_pub_xy L = Raises "Could not create x coordinate" L')
  /\ (avail L' = 1%nat ->
      (Z.to_nat (PK_COORD_SIZE + 1) < length (o_fresh (PK_COORD_SIZE + 1)))%nat ->
      exists x L'',
        p256_pub_xy L = Raises "Could not create y coordinate" L'' /\
        stack L'' = stack L ++ [LOctet x] /\
        octet_bytes x = take 32 (octet_bytes raw) /\
        calls L'' = calls L').
Proof.
  intros Hn. split.
  - intros Hav. by apply (pub_xy_no_memory_x L L' (Some raw) fm).
  - intros Hav Hcap.
    destruct (normalize_shape _ _ _ _ _ _ Hn) as (_ & _ & _ & Hraw & _).
    destruct (Hraw raw eq_refl) as [Hrlen Hrcap].
    destruct (raw_halves raw Hrlen Hrcap) as (Hx & _ & Hxlen & _).
    rewrite (pub_xy_no_memory_y L L' raw fm Hn Hav Hcap).
    eexists _, _. split; [done|]. split; [done|].
    split; [|done]. rewrite coord_octet_bytes by done. exact Hx.
Qed.

(** X11.  compress on a key that normalizes calls the engine's
    compression routine once, on the 64 bytes of the normalized key.  A
    zero result code returns one octet of 33 bytes holding what the engine
    wrote; a non-zero code raises CompressionFailed, the octet created for
    the result staying on the stack; with no octet left for the result the
    call raises before the engine is reached. *)
Theorem compress_result
    (L L' : lua_State) (raw : octet) (fm : option string) :
  allocate_raw_public_key 1 L = Next (0, Some raw, fm) L' ->
  let res := p256_compress_publickey (octet_bytes raw) in
  let c := filled COMPRESSED_PK_SIZE (snd res) in
  (avail L' = O ->
     p256_compress_pub L = Raises "Could not create compressed public key" L')
  /\ (forall k, avail L' = S k ->
      exists L'',
        stack L'' = stack L ++ [LOctet c] /\
        calls L'' = calls L' ++ [CallCompress (octet_bytes raw)] /\
        length (octet_bytes c) = 33%nat /\
        (fst res = 0 -> p256_compress_pub L = Returns [LOctet c] L'') /\
        (fst res <> 0 ->
           exists msg,
             p256_compress_pub L = Raises msg L'' /\
             error_of_message msg = Some CompressionFailed)).
Proof.
  intros Hn. cbv zeta. split.
  - intros Hav. by apply (compress_no_memory L L' (Some raw) fm).
  - intros k Hav.
    rewrite (compress_normalized L L' raw fm k Hn Hav). cbv zeta.
    exists (with_avail k
              (with_stack
                 (stack L ++
                  [LOctet (filled COMPRESSED_PK_SIZE
                             (snd (p256_compress_publickey (octet_bytes raw))))])
                 (log_call (CallCompress (octet_bytes raw)) L'))).
    split; [reflexivity|]. split; [reflexivity|]. split.
    + apply (filled_length COMPRESSED_PK_SIZE). apply compress_size.
    + split.
      * intros Hret. by rewrite decide_False by (intros Hc; by apply Hc).
      * intros Hret. rewrite decide_True by done. eauto.
Qed.

(** X12.  Compressing twice is compressing once: for a valid raw key (one
    the engine compresses to prefix || X and decompresses back), compress
    applied to the octet that compress returned gives that same octet
    again. *)
Theorem compress_idempotent
    (L1 L2 : lua_State) (pk : octet) (n1 n2 : nat) :
  octet_wf pk -> len pk = PK_SIZE ->
  engine_roundtrips (octet_bytes pk) ->
  avail L1 = S (S n1) -> avail L2 = S (S n2) ->
  exists cpk,
    returned (p256_compress_pub (with_stack [LOctet pk] L1)) = Some [LOctet cpk] /\
    returned (p256_compress_pub (with_stack [LOctet cpk] L2)) = Some [LOctet cpk].
Proof.
  intros Hwf Hlen (prefix & Hpre & Hcomp & Hunc) Hav1 Hav2.
  pose proof (octet_bytes_length pk Hwf) as Hpklen. rewrite Hlen in Hpklen.
  set (c := prefix :: take 32 (octet_bytes pk)) in *.
  assert (Hclen : length c = 33%nat).
  { unfold c. cbn [length]. rewrite length_take_le; [done | sizes; lia]. }
  set (raw := filled PK_SIZE (octet_bytes pk)).
  assert (Hrawbytes : octet_bytes raw = octet_bytes pk) by by apply filled_bytes.
  set (cpk := filled COMPRESSED_PK_SIZE c).
  assert (Hcbytes : octet_bytes cpk = c) by by apply filled_bytes.
  assert (Hcwf : octet_wf cpk).
  { split; [done|]. unfold cpk, filled. cbn [val len].
    pose proof (o_fresh_size COMPRESSED_PK_SIZE).
    rewrite length_app, length_drop. sizes. lia. }
  pose proof (normalize_raw (with_stack [LOctet pk] L1) 1 pk (S n1)
                ltac:(done) eq_refl Hwf Hav1 Hlen) as Hn1.
  pose proof (compress_normalized _ _ raw _ n1 Hn1 eq_refl) as Hc1.
  pose proof (normalize_compressed (with_stack [LOctet cpk] L2) 1 cpk (S n2)
                ltac:(done) eq_refl Hcwf Hav2 prefix eq_refl) as Hn2.
  rewrite Hcbytes, Hunc in Hn2. cbv zeta in Hn2. cbn [fst snd] in Hn2.
  specialize (Hn2 eq_refl Hpre).
  pose proof (compress_normalized _ _ raw _ n2 Hn2 eq_refl) as Hc2.
  cbv zeta in Hc1, Hc2. fold raw in Hc1.
  rewrite Hrawbytes, Hcomp in Hc1, Hc2. cbn [fst snd] in Hc1, Hc2.
  rewrite decide_False in Hc1 by (intros Hne; by apply Hne).
  rewrite decide_False in Hc2 by (intros Hne; by apply Hne).
  exists cpk. by rewrite Hc1, Hc2.
Qed.

(** X13.  A third argument that is not an octet (nil, a boolean) does not
    make sign fall back to the engine's own nonce: with a 32-byte secret
    and a message, sign raises an allocation error for the ephemeral key,
    after the signature octet was created and without calling the engine
    or touching the generator. *)
Theorem sign_rejects_non_octet_ephemeral
    (L : lua_State) (sk m : octet) (n : nat) :
  stack L !! 0%nat = Some (LOctet sk) ->
  stack L !! 1%nat = Some (LOctet m) ->
  (2 < length (stack L))%nat ->
  (forall o, stack L !! 2%nat <> Some (LOctet o)) ->
  octet_wf m -> len sk = SK_SIZE -> avail L = S n ->
  exists L',
    p256_sign L = Raises "Could not allocate ephemeral key" L' /\
    calls L' = calls L /\ zrng L' = zrng L /\ avail L' = n.
Proof.
  intros Hsk Hm Hargs Hnone Hwfm Hlen Hav.
  rewrite (sign_non_octet_ephemeral L sk m n) by done.
  by eexists.
Qed.

(** X14.  sign with two arguments passes a NULL nonce to the engine, so
    that the engine draws its own: ECDSA-sign is called once with the 32
    secret bytes and the digest of the message, the generator of the
    context becomes the one the engine leaves, and a zero result code
    returns one octet of 64 bytes, the signature. *)
Theorem sign_without_ephemeral (L : lua_State) (sk m : octet) (n : nat) :
  stack L = [LOctet sk; LOctet m] ->
  octet_wf sk -> octet_wf m -> len sk = SK_SIZE -> avail L = S n ->
  let digest := sha256_digest (octet_bytes m) in
  let res := p256_ecdsa_sign (zrng L) None (octet_bytes sk) digest HASH_SIZE in
  let sig := filled SIG_SIZE (snd (fst res)) in
  exists L',
    calls L' = calls L ++ [CallEcdsaSign None (octet_bytes sk) digest HASH_SIZE] /\
    zrng L' = snd res /\
    length (octet_bytes sig) = 64%nat /\
    (fst (fst res) = 0 -> p256_sign L = Returns [LOctet sig] L') /\
    (fst (fst res) <> 0 -> p256_sign L = Raises "Could not sign message" L').
Proof.
  intros Hst Hwfsk Hwfm Hlen Hav. cbv zeta.
  rewrite (sign_spec L sk m [] Hst Hwfsk Hwfm).
  rewrite decide_True by done. rewrite Hav. cbv zeta. cbn [head].
  set (digest := sha256_digest (octet_bytes m)).
  set (res := p256_ecdsa_sign (zrng L) None (octet_bytes sk) digest HASH_SIZE).
  exists (with_zrng (snd res)
            (log_call (CallEcdsaSign None (octet_bytes sk) digest HASH_SIZE)
               (with_avail n
                  (with_stack (stack L ++ [LOctet (filled SIG_SIZE (snd (fst res)))])
                     L)))).
  split; [reflexivity|]. split; [reflexivity|]. split.
  - apply (filled_length SIG_SIZE). apply ecdsa_sign_size.
  - split.
    + intros Hret. by rewrite decide_False by (intros Hc; by apply Hc).
    + intros Hret. by rewrite decide_True by done.
Qed.

(** X15.  keygen takes one octet from the allocator and calls the
    engine's key-pair generation once, with a NULL nonce; the generator of
    the context becomes the one the engine leaves.  When the allocator has
    nothing left, the store to [sk->len] goes through the NULL pointer
    before the NULL check is reached. *)
Theorem keygen_effects (L : lua_State) :
  (avail L = O -> p256_keygen L = Crashes)
  /\ (forall n, avail L = S n ->
      exists vals L',
        p256_keygen L = Returns vals L' /\
        avail L' = n /\
        calls L' = calls L ++ [CallGenKeypair None] /\
        zrng L' = snd (p256_gen_keypair (zrng L) None)).
Proof.
  rewrite keygen_spec. split.
  - by intros ->.
  - intros n ->. by eexists _, _.
Qed.

(** ** No undefined behaviour on well-formed octets *)

Lemma normalize_total (L : lua_State) (pk_pos : Z) (pk : octet) :
  1 <= pk_pos ->
  stack L !! Z.to_nat (pk_pos - 1) = Some (LOctet pk) ->
  octet_wf pk ->
  exists ret raw fm L', allocate_raw_public_key pk_pos L = Next (ret, raw, fm) L'.
Proof.
  intros Hpos Harg Hwf.
  destruct (avail L) as [|n] eqn:Hav.
  { rewrite (normalize_no_memory L pk_pos pk) by done. by eexists _, _, _, _. }
  assert (Hfirst : 0 < len pk -> exists b0, val pk !! 0%nat = Some b0).
  { intros Hpos0. destruct Hwf as [_ Hcap].
    apply lookup_lt_is_Some_2. lia. }
  destruct (decide (len pk = PK_SIZE)) as [H64|H64].
  { rewrite (normalize_raw L pk_pos pk n) by done. by eexists _, _, _, _. }
  destruct (decide (len pk = UNCOMPRESSED_PK_SIZE)) as [H65|H65].
  { destruct Hfirst as [b0 Hb0]; [by rewrite H65|].
    destruct (Byte.byte_eq_dec b0 x04) as [->|Hne].
    - rewrite (normalize_uncompressed L pk_pos pk n) by done.
      by eexists _, _, _, _.
    - rewrite (normalize_uncompressed_bad_prefix L pk_pos pk n Hpos Harg Hav b0)
        by done.
      by eexists _, _, _, _. }
  destruct (decide (len pk = COMPRESSED_PK_SIZE)) as [H33|H33].
  { destruct Hfirst as [b0 Hb0]; [by rewrite H33|].
    destruct (Byte.byte_eq_dec b0 x02) as [->|Hne2].
    - rewrite (normalize_compressed L pk_pos pk n Hpos Harg Hwf Hav x02)
        by (done || by left).
      by eexists _, _, _, _.
    - destruct (Byte.byte_eq_dec b0 x03) as [->|Hne3].
      + rewrite (normalize_compressed L pk_pos pk n Hpos Harg Hwf Hav x03)
          by (done || by right).
        by eexists _, _, _, _.
      + rewrite (normalize_compressed_bad_prefix L pk_pos pk n Hpos Harg Hav b0)
          by done.
        by eexists _, _, _, _. }
  rewrite (normalize_bad_length L pk_pos pk n) by done.
  by eexists _, _, _, _.
Qed.

Lemma at_end_safe (k : nat) (fm : option string) (L : lua_State) :
  (k <= length (stack L))%nat -> at_end k fm L <> Crashes.
Proof.
  intros Hk. unfold at_end, run, END. unfold_c.
  destruct fm; [done|]. by rewrite decide_True by done.
Qed.

Lemma sign_safe (L : lua_State) (sk m : octet) :
  stack L !! 0%nat = Some (LOctet sk) ->
  stack L !! 1%nat = Some (LOctet m) ->
  octet_wf sk -> octet_wf m ->
  p256_sign L <> Crashes.
Proof.
  intros Hsk Hm Hwfsk Hwfm.
  destruct (decide (len sk = SK_SIZE)) as [Hlen|Hlen];
    [|by rewrite (sign_bad_secret L sk m)].
  pose proof (o_fresh_size SIG_SIZE) as Hfresh.
  destruct L as [st av r cs]. cbn [stack] in *.
  unfold p256_sign. unfold_c. steps.
  change (Z.to_nat (1 - 1)) with 0%nat. change (Z.to_nat (2 - 1)) with 1%nat.
  change (Z.to_nat (3 - 1)) with 2%nat.
  rewrite Hsk. steps. rewrite Hm. steps.
  rewrite (hash_loop m Hwfm). steps.
  rewrite hash_buffer_write. steps.
  destruct av as [|n]; steps; [done|].
  assert (Hengine : forall e : option octet,
    match
      (let '(ret, sig, r0) :=
         p256_ecdsa_sign r e (octet_bytes sk) (sha256_digest (octet_bytes m))
           HASH_SIZE in
       write_bytes (o_fresh SIG_SIZE) sig)
    with Some _ => True | None => False end).
  { intros e.
    pose proof (ecdsa_sign_size r e (octet_bytes sk)
                  (sha256_digest (octet_bytes m)) HASH_SIZE) as Hout.
    destruct (p256_ecdsa_sign r e _ _ HASH_SIZE) as [[ret out] r'].
    rewrite write_bytes_some by (simpl in Hout; sizes; lia). done. }
  unfold sha256_digest in Hengine.
  case_decide as Hargs.
  - steps. rewrite lookup_app_l by lia.
    destruct (st !! 2%nat) as [[| |e]|]; steps; try done.
    rewrite (read_octet sk SK_SIZE) by done. steps.
    rewrite hash_buffer_read. steps.
    specialize (Hengine (Some e)).
    destruct (p256_ecdsa_sign r (Some e) _ _ HASH_SIZE) as [[ret out] r'].
    steps.
    destruct (write_bytes (o_fresh SIG_SIZE) out); [|done]. steps.
    case_decide; steps; [done|].
    erewrite END_1 by reflexivity. done.
  - steps.
    rewrite (read_octet sk SK_SIZE) by done. steps.
    rewrite hash_buffer_read. steps.
    specialize (Hengine None).
    destruct (p256_ecdsa_sign r None _ _ HASH_SIZE) as [[ret out] r'].
    steps.
    destruct (write_bytes (o_fresh SIG_SIZE) out); [|done]. steps.
    case_decide; steps; [done|].
    erewrite END_1 by reflexivity. done.
Qed.

Lemma not_octet_slot (st : list lval) (i : nat) :
  (exists o, st !! i = Some (LOctet o)) \/ (forall o, st !! i <> Some (LOctet o)).
Proof.
  destruct (st !! i) as [[| |o]|]; [by right | by right | left; eauto | by right].
Qed.

(** X16.  On a frame whose octets are well formed (length within the
    buffer), no read or store of pubgen, validate, sign, verify or compress
    leaves a buffer and none goes through NULL: these calls return or
    raise, whatever the arguments, the state of the allocator and the
    answers of the engine.  The same holds for coordinates when coordinate
    buffers reach index 33 and the frame holds two values or more; with a
    single argument, a key the engine fails to decompress makes it return
    two values from a frame of one. *)
Theorem no_undefined_behaviour (L : lua_State) :
  (forall i o, stack L !! i = Some (LOctet o) -> octet_wf o) ->
  p256_pubgen L <> Crashes /\
  p256_pubcheck L <> Crashes /\
  p256_sign L <> Crashes /\
  p256_verify L <> Crashes /\
  p256_compress_pub L <> Crashes /\
  ((Z.to_nat (PK_COORD_SIZE + 1) < length (o_fresh (PK_COORD_SIZE + 1)))%nat ->
   (2 <= length (stack L))%nat ->
   p256_pub_xy L <> Crashes).
Proof.
  intros Hall.
  destruct (not_octet_slot (stack L) 0) as [[a0 Ha0]|Hnone0].
  2: { destruct (first_argument_missing L Hnone0)
         as (-> & -> & -> & -> & -> & ->). done. }
  pose proof (Hall _ _ Ha0) as Hwf0.
  destruct (normalize_total L 1 a0 ltac:(done) Ha0 Hwf0)
    as (ret & raw & fm & L' & Hn).
  destruct (normalize_shape _ _ _ _ _ _ Hn) as (Hst & _ & _ & Hraw & Hfm & _).
  assert (Hlen1 : (1 <= length (stack L'))%nat).
  { rewrite Hst. apply lookup_lt_Some in Ha0. lia. }
  split.
  { rewrite (pubgen_spec L a0 Ha0 Hwf0).
    case_decide; [|done]. destruct (avail L); [done|]. cbv zeta. by case_decide. }
  split.
  { destruct (decide (ret = 0)) as [->|Hret].
    - destruct (Hfm eq_refl) as [_ [r ->]].
      by rewrite (pubcheck_normalized L L' r fm Hn).
    - rewrite (pubcheck_failed_normalize _ _ _ _ _ Hn Hret). by apply at_end_safe. }
  split.
  { destruct (not_octet_slot (stack L) 1) as [[a1 Ha1]|Hnone1].
    - apply (sign_safe L a0 a1); eauto.
    - by rewrite (sign_no_message L a0). }
  split.
  { destruct (decide (ret = 0)) as [->|Hret].
    - destruct (Hfm eq_refl) as [_ [r ->]].
      destruct (not_octet_slot (stack L) 1) as [[a1 Ha1]|Hnone1];
        [|by rewrite (verify_no_message L L' (Some r) fm)].
      destruct (not_octet_slot (stack L) 2) as [[a2 Ha2]|Hnone2];
        [|by rewrite (verify_no_signature L L' (Some r) fm a1)].
      rewrite (verify_normalized L L' r fm a1 a2) by eauto.
      by case_decide.
    - rewrite (verify_failed_normalize _ _ _ _ _ Hn Hret). by apply at_end_safe. }
  split.
  { destruct (decide (ret = 0)) as [->|Hret].
    - destruct (Hfm eq_refl) as [_ [r ->]].
      destruct (avail L') as [|k] eqn:Hav.
      + by rewrite (compress_no_memory L L' (Some r) fm).
      + rewrite (compress_normalized L L' r fm k Hn Hav). cbv zeta. by case_decide.
    - rewrite (compress_failed_normalize _ _ _ _ _ Hn Hret). by apply at_end_safe. }
  intros Hcap Hlen2.
  destruct (decide (ret = 0)) as [->|Hret].
  - destruct (Hfm eq_refl) as [_ [r ->]].
    destruct (avail L') as [|[|k]] eqn:Hav.
    + by rewrite (pub_xy_no_memory_x L L' (Some r) fm).
    + by rewrite (pub_xy_no_memory_y L L' r fm).
    + by rewrite (pub_xy_normalized L L' r fm k).
  - rewrite (pub_xy_failed_normalize _ _ _ _ _ Hn Hret).
    apply at_end_safe. by rewrite Hst.
Qed.

(** X17.  What the normalizer guarantees to its callers, whatever it is
    given.  It never jumps or throws.  When it returns, the stack and the
    generator are as before.  A result code of 0 comes with no message and
    with a result octet of exactly 64 bytes.  A message comes with result
    code 1 and stands for InvalidKeyLength, InvalidEncoding or
    AllocationFailed.  And a failure without a message happens only after
    a call to the engine's decompression routine. *)
Theorem normalizer_invariants (pk_pos : Z) (L : lua_State) :
  (forall fm L', allocate_raw_public_key pk_pos L <> GotoEnd fm L') /\
  (forall msg L', allocate_raw_public_key pk_pos L <> Thrown msg L') /\
  (forall ret raw fm L',
     allocate_raw_public_key pk_pos L = Next (ret, raw, fm) L' ->
     stack L' = stack L /\ zrng L' = zrng L /\
     (ret = 0 ->
        fm = None /\
        exists r, raw = Some r /\ len r = PK_SIZE /\
                  length (octet_bytes r) = 64%nat) /\
     (forall msg, fm = Some msg ->
        ret = 1 /\
        calls L' = calls L /\
        (error_of_message msg = Some InvalidKeyLength \/
         error_of_message msg = Some InvalidEncoding \/
         error_of_message msg = Some AllocationFailed)) /\
     (fm = None -> ret <> 0 ->
        exists c, calls L' = calls L ++ [CallUncompress c] /\
                  ret = fst (p256_uncompress_publickey c))).
Proof.
  split; [|split].
  - intros fm L'.
    unfold allocate_raw_public_key, mbind, C_bind, o_arg, o_alloc, o_free,
      call_uncompress_publickey, mret, C_ret, ub.
    repeat (case_match; simplify_eq); done.
  - intros msg L'.
    unfold allocate_raw_public_key, mbind, C_bind, o_arg, o_alloc, o_free,
      call_uncompress_publickey, mret, C_ret, ub.
    repeat (case_match; simplify_eq); done.
  - intros ret raw fm L' Hn.
    destruct (normalize_shape _ _ _ _ _ _ Hn) as (Hst & Hrng & _ & Hraw & Hfm & _).
    split; [done|]. split; [done|]. split; [|split].
    + intros Hret. destruct (Hfm Hret) as [-> [r ->]].
      destruct (Hraw r eq_refl) as [Hrlen Hrcap].
      split; [done|]. exists r. split; [done|]. split; [done|].
      unfold octet_bytes. rewrite Hrlen. by rewrite length_take_le.
    + revert Hn.
      unfold allocate_raw_public_key, mbind, C_bind, o_arg, o_alloc, o_free,
        call_uncompress_publickey, mret, C_ret, ub.
      intros Hn msg Hmsg.
      repeat (case_match; simplify_eq); simpl; repeat split; auto.
    + revert Hn.
      unfold allocate_raw_public_key, mbind, C_bind, o_arg, o_alloc, o_free,
        call_uncompress_publickey, mret, C_ret, ub.
      intros Hn Hnone Hret.
      repeat (case_match; simplify_eq); simpl; try done.
      eexists. split; [reflexivity|].
      match goal with Hc : p256_uncompress_publickey _ = _ |- _ => by rewrite Hc end.
Qed.

(** X18.  Only the logical bytes of an argument matter.  Two secret-key
    octets with the same first [len] bytes, and two message octets with
    the same first [len] bytes, give sign the same engine call, the same
    returned signature and the same error, whatever else their buffers
    hold. *)
Theorem sign_reads_logical_bytes_only
    (L : lua_State) (sk sk' m m' : octet) (ks : list octet) :
  octet_wf sk -> octet_wf sk' -> octet_wf m -> octet_wf m' ->
  octet_bytes sk' = octet_bytes sk ->
  octet_bytes m' = octet_bytes m ->
  let Ls := with_stack (LOctet sk :: LOctet m :: map LOctet ks) L in
  let Ls' := with_stack (LOctet sk' :: LOctet m' :: map LOctet ks) L in
  returned (p256_sign Ls') = returned (p256_sign Ls) /\
  (forall msg L1, p256_sign Ls = Raises msg L1 ->
     exists L1', p256_sign Ls' = Raises msg L1') /\
  (forall L1 L1', final_state (p256_sign Ls) = Some L1 ->
     final_state (p256_sign Ls') = Some L1' ->
     calls L1' = calls L1 /\ zrng L1' = zrng L1).
Proof.
  intros Hwfsk Hwfsk' Hwfm Hwfm' Hsk Hm. cbv zeta.
  assert (Hlen : len sk' = len sk).
  { pose proof (octet_bytes_length sk Hwfsk) as H1.
    pose proof (octet_bytes_length sk' Hwfsk') as H2.
    rewrite Hsk, H1 in H2. destruct Hwfsk, Hwfsk'. lia. }
  rewrite (sign_spec (with_stack (LOctet sk :: LOctet m :: map LOctet ks) L)
             sk m ks eq_refl Hwfsk Hwfm).
  rewrite (sign_spec (with_stack (LOctet sk' :: LOctet m' :: map LOctet ks) L)
             sk' m' ks eq_refl Hwfsk' Hwfm').
  rewrite Hlen, Hsk, Hm.
  cbn [stack avail zrng calls with_stack].
  repeat case_match; cbn [returned final_state];
    repeat split; try done;
    try (intros msg L1 [= <- <-]; eauto);
    try (by intros L1 L1' [= <-] [= <-]).
  all: by simplify_eq.
Qed.

End Properties.

(** * The claims on explicit inputs *)

(** The three rejections named with C1. *)
Example normalize_rejects_65_bytes_prefix_01 :
  failure_of
    (allocate_raw_public_key (A:=padded_allocator) 1
       (test_state [LOctet (octet_of_bytes (x01 :: G_raw))] 1 0))
  = Some InvalidEncoding.
Proof. vm_compute. reflexivity. Qed.

Example normalize_rejects_33_bytes_prefix_00 :
  failure_of
    (allocate_raw_public_key (A:=padded_allocator) 1
       (test_state [LOctet (octet_of_bytes (x00 :: Gx))] 1 0))
  = Some InvalidEncoding.
Proof. vm_compute. reflexivity. Qed.

Example normalize_rejects_10_bytes :
  failure_of
    (allocate_raw_public_key (A:=padded_allocator) 1
       (test_state [LOctet (octet_of_bytes (replicate 10 x04))] 1 0))
  = Some InvalidKeyLength.
Proof. vm_compute. reflexivity. Qed.

(** The three encodings of G normalize to the same raw key. *)
Lemma normalizer_dispatch_witness :
  let run_on (pk : octet) :=
    allocate_raw_public_key (A:=padded_allocator) 1 (test_state [LOctet pk] 1 0) in
  run_on G_raw_octet = Next (0, Some (filled (A:=padded_allocator) PK_SIZE G_raw), None)
                         (@LuaState test_engine [LOctet G_raw_octet] 0 0%nat [])
  /\ run_on G_uncompressed_octet
     = Next (0, Some (filled (A:=padded_allocator) PK_SIZE G_raw), None)
         (@LuaState test_engine [LOctet G_uncompressed_octet] 0 0%nat [])
  /\ run_on G_compressed_octet
     = Next (0, Some (filled (A:=padded_allocator) PK_SIZE G_raw), None)
         (@LuaState test_engine [LOctet G_compressed_octet] 0 0%nat
            [CallUncompress G_compressed]).
Proof.
  cbv zeta. split; [|split].
  - destruct (normalizer_dispatch (A:=padded_allocator)
                (test_state [LOctet G_raw_octet] 1 0) 1 G_raw_octet 0)
      as (H64 & _); [lia | reflexivity | apply octet_of_bytes_wf | reflexivity |].
    destruct (H64 eq_refl) as [Hres _]. exact Hres.
  - destruct (normalizer_dispatch (A:=padded_allocator)
                (test_state [LOctet G_uncompressed_octet] 1 0) 1
                G_uncompressed_octet 0)
      as (_ & H65 & _); [lia | reflexivity | apply octet_of_bytes_wf | reflexivity |].
    destruct (H65 eq_refl x04 eq_refl) as [_ Hok].
    destruct (Hok eq_refl) as [Hres _]. exact Hres.
  - destruct (normalizer_dispatch (A:=padded_allocator)
                (test_state [LOctet G_compressed_octet] 1 0) 1
                G_compressed_octet 0)
      as (_ & _ & H33 & _); [lia | reflexivity | apply octet_of_bytes_wf | reflexivity |].
    destruct (H33 eq_refl x03 eq_refl) as [_ Hok].
    exact (Hok (or_intror eq_refl)).
Defined.

(** validate and compress hand a rejected compressed key back to the
    caller instead of raising an error. *)
Lemma decompression_failure_not_raised_witness :
  let L := test_state [LOctet off_curve_compressed] 1 0 in
  let L' := @LuaState test_engine [LOctet off_curve_compressed] 0 0%nat
              [CallUncompress (x02 :: replicate 32 xff)] in
  p256_pubcheck (A:=padded_allocator) L = Returns [LOctet off_curve_compressed] L'
  /\ p256_compress_pub (A:=padded_allocator) L
     = Returns [LOctet off_curve_compressed] L'.
Proof.
  cbv zeta.
  destruct (decompression_failure_not_raised (H:=test_hash) (A:=padded_allocator)
              (test_state [LOctet off_curve_compressed] 1 0)
              off_curve_compressed 0 x02)
    as (_ & Hpub & _ & Hcomp & _);
    [ reflexivity | split; simpl; lia | reflexivity | reflexivity | reflexivity
    | left; reflexivity | vm_compute; lia | ].
  split; [exact Hpub | exact Hcomp].
Defined.

(** A successful keygen returns one value, not a key pair. *)
Lemma keygen_returns_keypair_counterexample :
  returned (p256_keygen (A:=padded_allocator) (test_state [] 1 1))
  = Some [LOctet (filled (A:=padded_allocator) SK_SIZE sk_one)]
  /\ ~ returns_keypair (p256_keygen (A:=padded_allocator) (test_state [] 1 1)).
Proof.
  split.
  - vm_compute. reflexivity.
  - intros (sk & pk & L' & Heq & _). vm_compute in Heq. discriminate Heq.
Qed.

Lemma keygen_returns_secret_only_witness :
  returned (p256_keygen (A:=padded_allocator) (test_state [] 1 1))
  = Some [LOctet (filled (A:=padded_allocator) SK_SIZE sk_one)].
Proof.
  destruct (keygen_returns_secret_only (A:=padded_allocator) (test_state [] 1 1))
    as (_ & Hret & _).
  destruct (Hret 0%nat eq_refl) as [L' Hk].
  rewrite Hk. reflexivity.
Defined.

(** The empty message: sign and verify pass the same digest. *)
Lemma sign_verify_same_digest_witness :
  let Ls := test_state [LOctet sk_one_octet; LOctet empty_message] 1 1 in
  let Lv := test_state [LOctet G_raw_octet; LOctet empty_message;
                        LOctet test_signature_octet] 1 0 in
  exists digest,
    length digest = 32%nat /\
    (exists Ls',
       final_state (p256_sign (H:=test_hash) (A:=padded_allocator) Ls) = Some Ls' /\
       calls Ls' = [CallEcdsaSign None sk_one digest HASH_SIZE]) /\
    (exists Lv'',
       final_state (p256_verify (H:=test_hash) (A:=padded_allocator) Lv) = Some Lv'' /\
       calls Lv'' = [CallEcdsaVerify test_signature G_raw digest HASH_SIZE]).
Proof.
  cbv zeta.
  destruct (sign_verify_same_digest (H:=test_hash) (A:=padded_allocator)
              (test_state [LOctet sk_one_octet; LOctet empty_message] 1 1)
              (test_state [LOctet G_raw_octet; LOctet empty_message;
                           LOctet test_signature_octet] 1 0)
              (@LuaState test_engine
                 [LOctet G_raw_octet; LOctet empty_message;
                  LOctet test_signature_octet] 0 0%nat [])
              sk_one_octet empty_message
              (filled (A:=padded_allocator) PK_SIZE G_raw)
              empty_message test_signature_octet [] 0 None)
    as (digest & _ & Hlen & (Ls' & Hs & Hcs) & (Lv'' & Hv & Hcv));
    [ reflexivity | split; simpl; lia | split; simpl; lia | reflexivity
    | reflexivity | reflexivity | reflexivity | reflexivity
    | split; simpl; lia | split; simpl; lia | reflexivity | reflexivity | ].
  exists digest. split; [exact Hlen|]. split.
  - exists Ls'. split; [exact Hs | exact Hcs].
  - exists Lv''. split; [exact Hv | exact Hcv].
Defined.

(** A 64-byte signature the engine rejects gives false. *)
Lemma verify_returns_engine_result_witness :
  exists L'',
    p256_verify (H:=test_hash) (A:=padded_allocator)
      (test_state [LOctet G_raw_octet; LOctet empty_message;
                   LOctet forged_signature_octet] 1 0)
    = Returns [LBool false] L''.
Proof.
  destruct (verify_returns_engine_result (H:=test_hash) (A:=padded_allocator)
              (test_state [LOctet G_raw_octet; LOctet empty_message;
                           LOctet forged_signature_octet] 1 0)
              (@LuaState test_engine
                 [LOctet G_raw_octet; LOctet empty_message;
                  LOctet forged_signature_octet] 0 0%nat [])
              (Some (filled (A:=padded_allocator) PK_SIZE G_raw)) None
              empty_message forged_signature_octet)
    as (r & Hr & _ & _ & Hfalse);
    [ reflexivity | reflexivity | reflexivity
    | split; simpl; lia | split; simpl; lia | ].
  injection Hr as <-.
  apply Hfalse; [reflexivity | vm_compute; lia].
Defined.

(** A 16-byte secret: InvalidSecretKey, no engine call, generator
    untouched. *)
Lemma validation_short_circuits_witness :
  exists msg L',
    p256_sign (H:=test_hash) (A:=padded_allocator)
      (test_state [LOctet short_secret; LOctet empty_message] 1 5)
    = Raises msg L' /\
    error_of_message msg = Some InvalidSecretKey /\
    calls L' = [] /\ zrng L' = 5%nat.
Proof.
  apply (proj1 (validation_short_circuits (E:=test_engine) (H:=test_hash)
                  (A:=padded_allocator))
           (test_state [LOctet short_secret; LOctet empty_message] 1 5)
           short_secret empty_message).
  - reflexivity.
  - reflexivity.
  - vm_compute. lia.
Defined.

(** The coordinates of the uncompressed encoding of G. *)
Lemma coordinates_split_witness :
  exists x y L'',
    p256_pub_xy (A:=padded_allocator) (test_state [LOctet G_uncompressed_octet] 3 0)
    = Returns [LOctet x; LOctet y] L'' /\
    octet_bytes x = Gx /\ octet_bytes y = Gy.
Proof.
  destruct (coordinates_split (A:=padded_allocator)
              (test_state [LOctet G_uncompressed_octet] 3 0)
              (@LuaState test_engine [LOctet G_uncompressed_octet] 2 0%nat [])
              (Some (filled (A:=padded_allocator) PK_SIZE G_raw)) None 0)
    as (r & x & y & L'' & Hr & Hxy & _ & _ & Hx & Hy & _);
    [ reflexivity | reflexivity | vm_compute; lia | ].
  injection Hr as <-.
  exists x, y, L''. split; [exact Hxy|]. split; [exact Hx | exact Hy].
Defined.

(** With the generator exhausted the engine reports failure, and keygen
    still returns a secret-key octet. *)
Lemma keygen_ignores_engine_failure_witness :
  fst (fst (fst (test_gen_keypair 0 None))) = -1
  /\ exists sk L',
       p256_keygen (A:=padded_allocator) (test_state [] 1 0) = Returns [LOctet sk] L' /\
       length (octet_bytes sk) = 32%nat.
Proof.
  split; [reflexivity|].
  apply (proj2 (keygen_ignores_engine_failure (A:=padded_allocator)
                  (test_state [] 1 0)) 0%nat).
  - reflexivity.
  - vm_compute. lia.
Defined.

(** G survives compression followed by coordinate extraction. *)
Lemma compress_roundtrip_witness :
  exists cpk x y,
    returned (p256_compress_pub (A:=padded_allocator)
                (with_stack [LOctet G_raw_octet] (test_state [] 2 0)))
    = Some [LOctet cpk] /\
    len cpk = COMPRESSED_PK_SIZE /\
    returned (p256_pub_xy (A:=padded_allocator)
                (with_stack [LOctet cpk] (test_state [] 3 0)))
    = Some [LOctet x; LOctet y] /\
    returned (p256_pub_xy (A:=padded_allocator)
                (with_stack [LOctet G_raw_octet] (test_state [] 3 0)))
    = Some [LOctet x; LOctet y] /\
    octet_bytes x = Gx /\ octet_bytes y = Gy.
Proof.
  destruct (compress_roundtrip (A:=padded_allocator)
              (test_state [] 2 0) (test_state [] 3 0) (test_state [] 3 0)
              G_raw_octet 0 0 0)
    as (cpk & x & y & Hc & Hcl & Hxy2 & Hxy3 & Hx & Hy);
    [ split; simpl; lia | reflexivity
    | exists x03; split; [right; reflexivity | split; reflexivity]
    | vm_compute; lia | reflexivity | reflexivity | reflexivity | ].
  exists cpk, x, y.
  split; [exact Hc|]. split; [exact Hcl|]. split; [exact Hxy2|].
  split; [exact Hxy3|]. split; [exact Hx | exact Hy].
Defined.

(** A one-byte ephemeral reaches the engine as it is. *)
Lemma sign_forwards_ephemeral_witness :
  exists L',
    calls L' = [CallEcdsaSign (Some one_byte_ephemeral) sk_one
                  (sha256_digest (H:=test_hash) []) HASH_SIZE] /\
    p256_sign (H:=test_hash) (A:=padded_allocator)
      (test_state [LOctet sk_one_octet; LOctet empty_message;
                   LOctet one_byte_ephemeral] 1 0)
    = Returns [LOctet (filled (A:=padded_allocator) SIG_SIZE test_signature)] L'.
Proof.
  destruct (sign_forwards_ephemeral (H:=test_hash) (A:=padded_allocator)
              (test_state [LOctet sk_one_octet; LOctet empty_message;
                           LOctet one_byte_ephemeral] 1 0)
              sk_one_octet empty_message one_byte_ephemeral [] 0)
    as (L' & Hcalls & Hok & _);
    [ reflexivity | split; simpl; lia | split; simpl; lia | reflexivity
    | reflexivity | ].
  exists L'. split; [exact Hcalls|].
  apply Hok. reflexivity.
Defined.

(** With a buffer of exactly the 33 bytes requested, the store at index 33
    in [p256_pub_xy] falls outside the buffer. *)
Example pub_xy_exact_buffer_crashes :
  p256_pub_xy (A:=exact_allocator) (test_state [LOctet G_raw_octet] 3 0) = Crashes.
Proof. vm_compute. reflexivity. Qed.

(** pubgen checks the engine's result code, unlike keygen. *)
Example pubgen_raises_engine_failure :
  exists L',
    p256_pubgen (A:=padded_allocator)
      (test_state [LOctet (octet_of_bytes (replicate 32 x00))] 1 0)
    = Raises "Could not generate public key" L'.
Proof. eexists. vm_compute. reflexivity. Qed.

(** * The further properties on explicit inputs *)

Lemma arguments_untouched_witness :
  exists L' pushed,
    final_state (p256_verify (H:=test_hash) (A:=padded_allocator)
                   (test_state verify_frame_args 1 0)) = Some L' /\
    stack L' = verify_frame_args ++ pushed.
Proof.
  destruct (final_state (p256_verify (H:=test_hash) (A:=padded_allocator)
                           (test_state verify_frame_args 1 0)))
    as [L'|] eqn:Hfin; [|vm_compute in Hfin; discriminate Hfin].
  destruct (@arguments_untouched test_engine test_hash padded_allocator
              "verify" (p256_verify (H:=test_hash) (A:=padded_allocator))
              (test_state verify_frame_args 1 0) L')
    as [pushed Hp]; [unfold p256_class; cbn [app]; repeat constructor | exact Hfin |].
  exists L', pushed. split; [reflexivity | exact Hp].
Defined.


Lemma pubgen_derives_public_key_witness :
  exists L' : @lua_State test_engine,
    p256_pubgen (A:=padded_allocator) (test_state [LOctet sk_one_octet] 1 0)
    = Returns [LOctet (filled (A:=padded_allocator) PK_SIZE G_raw)] L'.
Proof.
  destruct (pubgen_derives_public_key (A:=padded_allocator)
              (test_state [LOctet sk_one_octet] 1 0) sk_one_octet)
    as [_ Hok]; [reflexivity | split; simpl; lia |].
  destruct (Hok eq_refl 0%nat eq_refl) as (L' & _ & _ & Hret & _).
  exists L'. apply Hret. reflexivity.
Defined.

Lemma missing_first_argument_raises_witness :
  p256_verify (H:=test_hash) (A:=padded_allocator) (test_state [] 1 0)
  = Raises "Could not allocate public key" (test_state [] 1 0)
  /\ p256_sign (H:=test_hash) (A:=padded_allocator) (test_state [LNil] 1 0)
     = Raises "Could not allocate secret key" (test_state [LNil] 1 0).
Proof.
  split.
  - destruct (missing_first_argument_raises (H:=test_hash) (A:=padded_allocator)
                (test_state [] 1 0))
      as (_ & _ & _ & Hv & _); [intros o; discriminate | exact Hv].
  - destruct (missing_first_argument_raises (H:=test_hash) (A:=padded_allocator)
                (test_state [LNil] 1 0))
      as (_ & Hs & _); [intros o; discriminate | exact Hs].
Defined.

Lemma missing_later_arguments_raise_witness :
  p256_sign (H:=test_hash) (A:=padded_allocator)
    (test_state [LOctet sk_one_octet] 1 1)
  = Raises "Could not allocate message" (test_state [LOctet sk_one_octet] 1 1).
Proof.
  apply (proj1 (missing_later_arguments_raise (E:=test_engine) (H:=test_hash)
                  (A:=padded_allocator))
           (test_state [LOctet sk_one_octet] 1 1) sk_one_octet).
  - reflexivity.
  - intros o. discriminate.
Defined.

Lemma exhausted_allocator_raises_witness :
  p256_pub_xy (A:=padded_allocator)
    (test_state [LOctet (octet_of_bytes (replicate 10 x04))] 0 0)
  = Raises "Could not allocate raw public key"
      (test_state [LOctet (octet_of_bytes (replicate 10 x04))] 0 0).
Proof.
  destruct (exhausted_allocator_raises (H:=test_hash) (A:=padded_allocator)
              (test_state [LOctet (octet_of_bytes (replicate 10 x04))] 0 0)
              (octet_of_bytes (replicate 10 x04)))
    as (_ & _ & _ & Hxy & _); [reflexivity | reflexivity | exact Hxy].
Defined.

Lemma validate_returns_boolean_witness :
  exists L'',
    p256_pubcheck (A:=padded_allocator) (test_state [LOctet G_uncompressed_octet] 1 0)
    = Returns [LBool true] L''.
Proof.
  destruct (validate_returns_boolean (A:=padded_allocator)
              (test_state [LOctet G_uncompressed_octet] 1 0)
              (@LuaState test_engine [LOctet G_uncompressed_octet] 0 0%nat [])
              (Some (filled (A:=padded_allocator) PK_SIZE G_raw)) None)
    as (r & L'' & Hr & _ & Hp & _); [reflexivity|].
  injection Hr as <-.
  exists L''. exact Hp.
Defined.

Lemma encodings_agree_witness :
  let call (f : lua_CFunction) (args : list lval) :=
    returned (f (with_stack args (test_state [] 3 0))) in
  let tail := [LOctet empty_message; LOctet test_signature_octet] in
  call (p256_verify (H:=test_hash) (A:=padded_allocator))
    (LOctet G_uncompressed_octet :: tail)
  = call (p256_verify (H:=test_hash) (A:=padded_allocator))
      (LOctet G_raw_octet :: tail)
  /\ call (p256_pub_xy (A:=padded_allocator)) [LOctet G_compressed_octet]
     = call (p256_pub_xy (A:=padded_allocator)) [LOctet G_raw_octet].
Proof.
  cbv zeta.
  destruct (encodings_agree (H:=test_hash) (A:=padded_allocator)
              (test_state [] 3 0) G_raw_octet G_uncompressed_octet
              G_compressed_octet empty_message test_signature_octet [] 0 x03)
    as (_ & (Hv & _) & (_ & Hxy) & _);
    [ split; simpl; lia | reflexivity | split; simpl; lia | reflexivity
    | reflexivity | split; simpl; lia | reflexivity | reflexivity
    | right; reflexivity | reflexivity | split; simpl; lia | split; simpl; lia
    | reflexivity | vm_compute; lia | ].
  split; [exact Hv | exact Hxy].
Defined.

Lemma coordinates_allocation_failures_witness :
  p256_pub_xy (A:=padded_allocator) (test_state [LOctet G_raw_octet] 1 0)
  = Raises "Could not create x coordinate"
      (@LuaState test_engine [LOctet G_raw_octet] 0 0%nat []).
Proof.
  apply (proj1 (coordinates_allocation_failures (A:=padded_allocator)
                  (test_state [LOctet G_raw_octet] 1 0)
                  (@LuaState test_engine [LOctet G_raw_octet] 0 0%nat [])
                  (filled (A:=padded_allocator) PK_SIZE G_raw) None eq_refl)).
  reflexivity.
Defined.

Lemma compress_result_witness :
  exists L'',
    p256_compress_pub (A:=padded_allocator) (test_state [LOctet G_raw_octet] 2 0)
    = Returns [LOctet (filled (A:=padded_allocator) COMPRESSED_PK_SIZE G_compressed)]
        L''.
Proof.
  destruct (compress_result (A:=padded_allocator)
              (test_state [LOctet G_raw_octet] 2 0)
              (@LuaState test_engine [LOctet G_raw_octet] 1 0%nat [])
              (filled (A:=padded_allocator) PK_SIZE G_raw) None)
    as [_ Hok]; [reflexivity|].
  destruct (Hok 0%nat eq_refl) as (L'' & _ & _ & _ & Hret & _).
  exists L''. apply Hret. reflexivity.
Defined.

Lemma compress_idempotent_witness :
  exists cpk,
    returned (p256_compress_pub (A:=padded_allocator)
                (with_stack [LOctet G_raw_octet] (test_state [] 2 0)))
    = Some [LOctet cpk] /\
    returned (p256_compress_pub (A:=padded_allocator)
                (with_stack [LOctet cpk] (test_state [] 2 0)))
    = Some [LOctet cpk].
Proof.
  apply (compress_idempotent (A:=padded_allocator)
           (test_state [] 2 0) (test_state [] 2 0) G_raw_octet 0 0).
  - split; simpl; lia.
  - reflexivity.
  - exists x03. split; [right; reflexivity | split; reflexivity].
  - reflexivity.
  - reflexivity.
Defined.

Lemma sign_rejects_non_octet_ephemeral_witness :
  exists L' : @lua_State test_engine,
    p256_sign (H:=test_hash) (A:=padded_allocator)
      (test_state [LOctet sk_one_octet; LOctet empty_message; LNil] 1 4)
    = Raises "Could not allocate ephemeral key" L' /\
    calls L' = [] /\ zrng L' = 4%nat /\ avail L' = 0%nat.
Proof.
  apply (sign_rejects_non_octet_ephemeral (H:=test_hash) (A:=padded_allocator)
           (test_state [LOctet sk_one_octet; LOctet empty_message; LNil] 1 4)
           sk_one_octet empty_message 0).
  - reflexivity.
  - reflexivity.
  - simpl. lia.
  - intros o. discriminate.
  - split; simpl; lia.
  - reflexivity.
  - reflexivity.
Defined.

Lemma sign_without_ephemeral_witness :
  exists L' : @lua_State test_engine,
    zrng L' = 0%nat /\
    p256_sign (H:=test_hash) (A:=padded_allocator)
      (test_state [LOctet sk_one_octet; LOctet empty_message] 1 1)
    = Returns [LOctet (filled (A:=padded_allocator) SIG_SIZE test_signature)] L'.
Proof.
  destruct (sign_without_ephemeral (H:=test_hash) (A:=padded_allocator)
              (test_state [LOctet sk_one_octet; LOctet empty_message] 1 1)
              sk_one_octet empty_message 0)
    as (L' & _ & Hrng & _ & Hok & _);
    [ reflexivity | split; simpl; lia | split; simpl; lia | reflexivity
    | reflexivity | ].
  exists L'. split; [exact Hrng|]. apply Hok. reflexivity.
Defined.

Lemma keygen_effects_witness :
  p256_keygen (A:=padded_allocator) (test_state [] 0 1) = Crashes
  /\ exists vals (L' : @lua_State test_engine),
       p256_keygen (A:=padded_allocator) (test_state [] 1 1) = Returns vals L' /\
       avail L' = 0%nat /\ calls L' = [CallGenKeypair None] /\ zrng L' = 0%nat.
Proof.
  split.
  - apply (proj1 (keygen_effects (A:=padded_allocator) (test_state [] 0 1))).
    reflexivity.
  - apply (proj2 (keygen_effects (A:=padded_allocator) (test_state [] 1 1)) 0%nat).
    reflexivity.
Defined.

Lemma no_undefined_behaviour_witness :
  p256_verify (H:=test_hash) (A:=padded_allocator)
    (test_state verify_frame_args 0 0) <> Crashes
  /\ p256_sign (H:=test_hash) (A:=padded_allocator)
       (test_state verify_frame_args 1 0) <> Crashes.
Proof.
  assert (Hwf : forall (i : nat) (o : octet),
            verify_frame_args !! i = Some (LOctet o) -> octet_wf o).
  { intros [|[|[|i]]] o Ho; simpl in Ho; try discriminate Ho;
      injection Ho as <-; split; simpl; lia. }
  split.
  - destruct (no_undefined_behaviour (H:=test_hash) (A:=padded_allocator)
                (test_state verify_frame_args 0 0) Hwf)
      as (_ & _ & _ & Hv & _). exact Hv.
  - destruct (no_undefined_behaviour (H:=test_hash) (A:=padded_allocator)
                (test_state verify_frame_args 1 0) Hwf)
      as (_ & _ & Hs & _). exact Hs.
Defined.

Lemma normalizer_invariants_witness :
  exists c,
    c = x02 :: replicate 32 xff /\
    fst (test_uncompress_publickey c) = -1.
Proof.
  destruct (normalizer_invariants (A:=padded_allocator) 1
              (test_state [LOctet off_curve_compressed] 1 0))
    as (_ & _ & Hinv).
  destruct (Hinv (-1)
              (Some (filled (A:=padded_allocator) PK_SIZE []))
              None
              (@LuaState test_engine [LOctet off_curve_compressed] 0 0%nat
                 [CallUncompress (x02 :: replicate 32 xff)])
              eq_refl)
    as (_ & _ & _ & _ & Hsilent).
  destruct (Hsilent eq_refl ltac:(lia)) as (c & Hcalls & Hret).
  exists c. split.
  - simpl in Hcalls. injection Hcalls as <-. reflexivity.
  - symmetry. exact Hret.
Defined.

Lemma sign_reads_logical_bytes_only_witness :
  returned (p256_sign (H:=test_hash) (A:=padded_allocator)
              (with_stack [LOctet sk_one_slack; LOctet empty_message]
                 (test_state [] 1 1)))
  = returned (p256_sign (H:=test_hash) (A:=padded_allocator)
                (with_stack [LOctet sk_one_octet; LOctet empty_message]
                   (test_state [] 1 1))).
Proof.
  destruct (sign_reads_logical_bytes_only (H:=test_hash) (A:=padded_allocator)
              (test_state [] 1 1) sk_one_octet sk_one_slack
              empty_message empty_message [])
    as (Hret & _);
    [ split; simpl; lia | split; simpl; lia | split; simpl; lia
    | split; simpl; lia | reflexivity | reflexivity | exact Hret ].
Defined.
